(** * Voice gateway: tools, webhook, SDP relay and session registry

    A shallow embedding of the TypeScript voice gateway
    ([voice-gateway/src/server.ts], [tools/fileTool.ts], [tools/scriptTool.ts])
    and the properties of it stated in the specification.

    Conventions of the embedding.
    - A JavaScript string is a [string]: the bytes of its UTF-8 encoding,
      which is what [Buffer.from] hands to [timingSafeEqual].  On ASCII
      text a byte is a code unit.
    - A JavaScript value that reaches the code from JSON or from a decoded
      form is a [jsval].
    - A computation that may throw returns an [outcome]; an [async] function
      is its settled promise: [Return] for fulfilled, [Throw] for rejected.
    - Collaborators reached over HTTP (the file and script backend, the
      speech-model signaling endpoint) are functions from the request to
      the reply, passed as arguments.
    - Primitives of the platform that the code only calls ([JSON.stringify],
      [String.prototype.toUpperCase], HMAC-SHA1 with base64 digest) are the
      fields of the class [Platform]. *)

From Stdlib Require Import ZArith NArith String Ascii List Lia Bool.
From Stdlib Require Import DecimalString Decimal.
From stdpp Require Import base option list strings gmap sorting.


Local Open Scope Z_scope.

(** ** JavaScript values and the conversions the gateway relies on *)

Module JS.

#[warnings="-register-all"]
Inductive jsval : Type :=
| JUndef
| JNull
| JBool (b : bool)
| JNum (n : Z)
| JStr (s : string)
| JArr (items : list jsval)
| JObj (fields : list (string * jsval)).

(** What a [throw] carries: an [Error] (or a subclass, named by [cls]) with
    its [message], or some other value. *)
Inductive exn : Type :=
| JsError (cls : string) (message : string)
| NonError (v : jsval).

Inductive outcome (A : Type) : Type :=
| Return (a : A)
| Throw (e : exn).
Arguments Return {A} a.
Arguments Throw {A} e.

Definition bind {A B} (m : outcome A) (k : A -> outcome B) : outcome B :=
  match m with
  | Return a => k a
  | Throw e => Throw e
  end.

(** [try { body } catch (e) { handler }] *)
Definition try_catch {A} (body : outcome A) (handler : exn -> A) : A :=
  match body with
  | Return a => a
  | Throw e => handler e
  end.

(** The double quote and the line feed, as strings. *)
Definition dq : string := String (ascii_of_nat 34) EmptyString.
Definition nl : string := String (ascii_of_nat 10) EmptyString.

(** Decimal rendering of an integer number, as a template literal does. *)
Definition num_to_string (n : Z) : string :=
  NilZero.string_of_int (Z.to_int n).

(** ToBoolean *)
Definition truthy (v : jsval) : bool :=
  match v with
  | JUndef | JNull => false
  | JBool b => b
  | JNum n => negb (n =? 0)
  | JStr s => negb (String.eqb s "")
  | JArr _ | JObj _ => true
  end.

(** [Array.prototype.join] on strings *)
Definition join (sep : string) (l : list string) : string :=
  String.concat sep l.

(** ToString, as [String(v)] and a template literal apply it.  An array
    joins its items with a comma, rendering [null] and [undefined] items
    as the empty string; a plain object is ["[object Object]"].

    Two limits of this rendering: a number is an integer and is printed
    in full (JavaScript switches to exponent form from 1e21 on), and an
    object that has an own property [toString] makes the conversion throw
    a [TypeError] in JavaScript, which this function does not do.  The
    statements below that depend on a conversion are therefore made for
    strings, or for arrays of strings. *)
Fixpoint toString (v : jsval) : string :=
  match v with
  | JUndef => "undefined"
  | JNull => "null"
  | JBool true => "true"
  | JBool false => "false"
  | JNum n => num_to_string n
  | JStr s => s
  | JArr items =>
      join ","
        (List.map (fun x => match x with
                            | JUndef | JNull => ""
                            | _ => toString x
                            end) items)
  | JObj _ => "[object Object]"
  end.

(** [a || b] *)
Definition or_else (a b : jsval) : jsval := if truthy a then a else b.

(** [s.startsWith(p)] *)
Definition startsWith (s p : string) : bool := String.prefix p s.

(** [strip_prefix p s] is the rest of [s] after its prefix [p], if [s]
    starts with [p]. *)
Fixpoint strip_prefix (p s : string) : option string :=
  match p, s with
  | EmptyString, _ => Some s
  | String a p', String b s' =>
      if Ascii.eqb a b then strip_prefix p' s' else None
  | String _ _, EmptyString => None
  end.

(** [s.replace(pat, rep)] with a string pattern: the first occurrence of
    [pat] is replaced, the rest is kept.  ([rep] holds no [$] here.) *)
Fixpoint replace (s pat rep : string) : string :=
  match strip_prefix pat s with
  | Some rest => rep +:+ rest
  | None =>
      match s with
      | EmptyString => EmptyString
      | String c s' => String c (replace s' pat rep)
      end
  end.

(** [v || dflt] where [v] is a string or [undefined], as for a variable of
    the environment or a request header: [dflt] when it is unset or
    empty. *)
Definition or_default (v : option string) (dflt : string) : string :=
  match v with
  | Some s => if String.eqb s "" then dflt else s
  | None => dflt
  end.

(** [crypto.timingSafeEqual(Buffer.from(a), Buffer.from(b))]: a
    [RangeError] when the byte lengths differ, else whether the bytes are
    equal. *)
Definition timingSafeEqual (a b : string) : outcome bool :=
  if Nat.eqb (String.length a) (String.length b)
  then Return (String.eqb a b)
  else Throw (JsError "RangeError"
                      "Input buffers must have the same byte length").

(** *** Replies of [fetch] *)

(** A settled [Response]: its [status], and what [res.json()] and
    [res.text()] settle to.  [json] is the body read at the type [A] the
    caller declares for it: [Return a] stands for a body that is JSON of
    that type, [Throw] for a body that is no JSON (a body that is JSON of
    another shape is not covered); [json_any] is the body read as an
    untyped error detail. *)
Record response (A : Type) : Type := mkResponse {
  status : Z;
  json : outcome A;
  json_any : outcome jsval;
  text : outcome string
}.
Arguments mkResponse {A}.
Arguments status {A}.
Arguments json {A}.
Arguments json_any {A}.
Arguments text {A}.

(** [res.ok] *)
Definition ok {A} (r : response A) : bool :=
  (200 <=? status r) && (status r <=? 299).

Record fetch_request : Type := mkFetch {
  fetch_url : string;
  fetch_method : string;
  fetch_headers : list (string * string);
  fetch_body : option string
}.

(** [fetch] against an endpoint whose payload is read at type [A]; it
    rejects when no reply arrives. *)
Definition fetcher (A : Type) : Type := fetch_request -> outcome (response A).

End JS.

Import JS.

(** The platform primitives the gateway calls and does not define. *)
Class Platform : Type := {
  JSON_stringify : jsval -> string;
  toUpperCase : string -> string;
  hmac_sha1_base64 : string -> string -> string
}.

(** ** tools/fileTool.ts *)

Module FileTool.

Inductive Operation : Type :=
| OpCreate | OpRead | OpWrite | OpAppend | OpInsert | OpReplace | OpSaveAs.

Definition operation_name (o : Operation) : string :=
  match o with
  | OpCreate => "create"
  | OpRead => "read"
  | OpWrite => "write"
  | OpAppend => "append"
  | OpInsert => "insert"
  | OpReplace => "replace"
  | OpSaveAs => "save_as"
  end.

Record FileOperationArgs : Type := mkArgs {
  operation : Operation;
  filename : option string;
  content : option string;
  line_number : option Z;
  pattern : option string;
  replacement : option string
}.

(** The arguments as the object that [JSON.stringify] receives: the
    optional members that are absent are no properties of it. *)
Definition args_object (a : FileOperationArgs) : jsval :=
  let opt (k : string) (f : option jsval) : list (string * jsval) :=
    match f with
    | Some v => [(k, v)]
    | None => []
    end in
  JObj ([("operation", JStr (operation_name (operation a)))]
        ++ opt "filename" (JStr <$> filename a)
        ++ opt "content" (JStr <$> content a)
        ++ opt "line_number" (JNum <$> line_number a)
        ++ opt "pattern" (JStr <$> pattern a)
        ++ opt "replacement" (JStr <$> replacement a)).

Section WithPlatform.
Context `{Platform}.

Definition file_operation_request (args : FileOperationArgs) : fetch_request :=
  {| fetch_url := "http://localhost:8000/tools/file_operation";
     fetch_method := "POST";
     fetch_headers := [("Content-Type", "application/json")];
     fetch_body := Some (JSON_stringify (args_object args)) |}.

Definition fileOperationTool (fetch : fetcher jsval) (args : FileOperationArgs)
  : outcome jsval :=
  bind (fetch (file_operation_request args)) (fun res =>
    if negb (ok res) then
      let err := try_catch (json_any res) (fun _ => JObj []) in
      Throw (JsError "Error"
               ("file_operation failed: " +:+ num_to_string (status res)
                  +:+ " " +:+ JSON_stringify err))
    else json res).

End WithPlatform.

End FileTool.

(** ** tools/scriptTool.ts *)

Module ScriptTool.

Record ScriptLoadArgs : Type := mkLoadArgs { script_name : string }.

Record Stage : Type := mkStage {
  stage_name : string;
  stage_prompt : string;
  stage_questions : option (list string);
  stage_actions : option (list string)
}.

Record Script : Type := mkScript {
  name : string;
  description : string;
  stages : list Stage;
  output_format : option string;
  interactive_elements : option (list string)
}.

(** [l.forEach((x, index) => ...)] where the callback updates one
    variable: the variable is threaded through the items in order. *)
Fixpoint forEach_from {A St : Type} (index : nat) (l : list A)
    (f : St -> A -> nat -> St) (s : St) : St :=
  match l with
  | [] => s
  | x :: l' => forEach_from (S index) l' f (f s x index)
  end.

Definition forEach {A St : Type} (l : list A) (f : St -> A -> nat -> St)
    (s : St) : St := forEach_from 0 l f s.

(** [xs && xs.length > 0] for an optional array *)
Definition nonempty_list {A : Type} (xs : option (list A)) : option (list A) :=
  match xs with
  | Some (x :: l) => Some (x :: l)
  | _ => None
  end.

(** An optional string that is present and not empty *)
Definition nonempty_string (s : option string) : option string :=
  match s with
  | Some s' => if String.eqb s' "" then None else Some s'
  | None => None
  end.

Section WithPlatform.
Context `{Platform}.

(** The text one stage adds to the instructions. *)
Definition stage_text (stage : Stage) (index : nat) : string :=
  let line :=
    num_to_string (Z.of_nat index + 1) +:+ ". **"
      +:+ toUpperCase (stage_name stage) +:+ "**: "
      +:+ stage_prompt stage +:+ nl in
  let questions :=
    match nonempty_list (stage_questions stage) with
    | Some qs => "   - Key questions: " +:+ join ", " qs +:+ nl
    | None => ""
    end in
  let actions :=
    match nonempty_list (stage_actions stage) with
    | Some acts => "   - Available actions: " +:+ join ", " acts +:+ nl
    | None => ""
    end in
  line +:+ questions +:+ actions.

Definition output_format_text (script : Script) : string :=
  match nonempty_string (output_format script) with
  | Some fmt => nl +:+ "### 📄 OUTPUT FORMAT: " +:+ fmt +:+ nl
  | None => ""
  end.

Definition interactive_elements_text (script : Script) : string :=
  match nonempty_list (interactive_elements script) with
  | Some els => nl +:+ "### 🎮 INTERACTIVE ELEMENTS: " +:+ join ", " els +:+ nl
  | None => ""
  end.

Definition execution_guidelines : string :=
  nl +:+ "### 🎯 SCRIPT EXECUTION GUIDELINES:" +:+ nl
  +:+ "- **YOU ARE NOW FOLLOWING THIS SCRIPT**: Use this as your primary guidance for the conversation" +:+ nl
  +:+ "- **STAGE-BY-STAGE APPROACH**: Guide the user through each stage naturally and conversationally" +:+ nl
  +:+ "- **DON'T RUSH**: Let the user explore and engage with each stage fully" +:+ nl
  +:+ "- **ADAPT WHEN NEEDED**: Use the script as a framework, but adapt to the user's needs and interests" +:+ nl
  +:+ "- **CAPTURE CONTENT**: Save important content in markdown files as you progress" +:+ nl
  +:+ "- **STAY ENCOURAGING**: Be supportive and positive throughout the process" +:+ nl
  +:+ "- **CURRENT STAGE**: Start with the first stage and progress naturally" +:+ nl
  +:+ nl +:+ "### 💡 IMPORTANT: This script is now your primary behavior guide. Follow its structure and prompts to help the user achieve their goals." +:+ nl.

Definition generateScriptInstructions (script : Script) : string :=
  let instructions :=
    nl +:+ nl +:+ "## 🎯 ACTIVE SCRIPT: " +:+ name script +:+ nl +:+ nl
       +:+ description script +:+ nl +:+ nl in
  let instructions := instructions +:+ ("### 📋 SCRIPT STRUCTURE:" +:+ nl) in
  let instructions :=
    forEach (stages script)
      (fun instructions stage index =>
         instructions +:+ stage_text stage index)
      instructions in
  let instructions := instructions +:+ output_format_text script in
  let instructions := instructions +:+ interactive_elements_text script in
  instructions +:+ execution_guidelines.

Definition script_request (args : ScriptLoadArgs) : fetch_request :=
  {| fetch_url := "http://localhost:8000/scripts/" +:+ script_name args;
     fetch_method := "GET";
     fetch_headers := [("Content-Type", "application/json")];
     fetch_body := None |}.

Definition scriptLoadTool (fetch : fetcher Script) (args : ScriptLoadArgs)
  : outcome (Script * string) :=
  bind (fetch (script_request args)) (fun res =>
    if negb (ok res) then
      let err := try_catch (json_any res) (fun _ => JObj []) in
      Throw (JsError "Error"
               ("Failed to load script '" +:+ script_name args +:+ "': "
                  +:+ num_to_string (status res) +:+ " "
                  +:+ JSON_stringify err))
    else
      bind (json res) (fun script =>
        let instructions := generateScriptInstructions script in
        Return (script, instructions))).

Definition list_request : fetch_request :=
  {| fetch_url := "http://localhost:8000/scripts";
     fetch_method := "GET";
     fetch_headers := [("Content-Type", "application/json")];
     fetch_body := None |}.

Definition listAvailableScripts (fetch : fetcher (list string))
  : outcome (list string) :=
  bind (fetch list_request) (fun res =>
    if negb (ok res) then
      let err := try_catch (json_any res) (fun _ => JObj []) in
      Throw (JsError "Error"
               ("Failed to list scripts: " +:+ num_to_string (status res)
                  +:+ " " +:+ JSON_stringify err))
    else json res).

End WithPlatform.

End ScriptTool.

(** ** Plain objects: own properties and their enumeration order *)

Module Obj.

(** A plain object built by assignments: its own string-keyed properties
    in the order of their creation. *)
Definition obj : Type := list (string * jsval).

Definition has_key (o : obj) (k : string) : bool :=
  existsb (fun kv => String.eqb (fst kv) k) o.

(** [o[k] = v] on an object whose prototype is [Object.prototype].  The
    key [__proto__] reaches the inherited setter and creates no own
    property; an existing property keeps its place; a new one is created
    last. *)
Definition obj_set (o : obj) (k : string) (v : jsval) : obj :=
  if String.eqb k "__proto__" then o
  else if has_key o k
       then List.map (fun kv => if String.eqb (fst kv) k then (k, v) else kv) o
       else o ++ [(k, v)].

Definition digit_value (c : ascii) : option N :=
  let n := N_of_ascii c in
  if ((48 <=? n) && (n <=? 57))%N then Some (n - 48)%N else None.

Fixpoint digits_value (acc : N) (s : string) : option N :=
  match s with
  | EmptyString => Some acc
  | String c s' =>
      match digit_value c with
      | Some d => digits_value (10 * acc + d)%N s'
      | None => None
      end
  end.

(** The value of a key that is an array index: the canonical decimal
    numeral (no leading zero) of an integer below 2^32 - 1. *)
Definition index_value (k : string) : option N :=
  match k with
  | EmptyString => None
  | String c rest =>
      if Ascii.eqb c "0"%char && negb (String.eqb rest "") then None
      else match digits_value 0 k with
           | Some n => if (n <? 4294967295)%N then Some n else None
           | None => None
           end
  end.

Definition is_index (kv : string * jsval) : Prop :=
  is_Some (index_value (fst kv)).

#[global] Instance is_index_dec (kv : string * jsval) : Decision (is_index kv).
Proof. unfold is_index. apply _. Defined.

Definition index_of (kv : string * jsval) : N :=
  default 0%N (index_value (fst kv)).

Definition index_le (a b : string * jsval) : Prop :=
  (index_of a <= index_of b)%N.

#[global] Instance index_le_dec : RelDecision index_le.
Proof. intros a b. unfold index_le. apply _. Defined.

(** [Object.entries(o)]: the array-index keys in ascending numeric order,
    then the other keys in the order of their creation. *)
Definition Object_entries (o : obj) : list (string * jsval) :=
  merge_sort index_le (filter is_index o)
    ++ filter (fun kv => ¬ is_index kv) o.

(** [Object.keys(m).sort()] on a parsed body [m]: the own keys in
    ascending order, compared unit by unit, a proper prefix first.  (The
    order in which [Object.keys] lists them does not survive the sort: the
    keys are distinct and the order is total.)  The units compared here
    are bytes; on ASCII keys that is the order of the code units which
    [sort] uses. *)
Definition Object_keys_sorted (m : gmap string jsval) : list string :=
  merge_sort String.le (map_to_list m).*1.

End Obj.

Import Obj.

(** ** server.ts *)

Module Server.

(** The process environment the gateway reads.  [env_PORT] is the number
    [Number(process.env.PORT)] when the variable is set and not empty. *)
Record Env : Type := mkEnv {
  env_PORT : option Z;
  env_PUBLIC_URL : option string;
  env_OPENAI_API_KEY : option string;
  env_TWILIO_AUTH_TOKEN : option string
}.

Definition PORT (env : Env) : Z := default 8080 (env_PORT env).

Definition PUBLIC_URL (env : Env) : string :=
  or_default (env_PUBLIC_URL env) ("http://localhost:" +:+ num_to_string (PORT env)).

Definition OPENAI_API_KEY (env : Env) : string :=
  or_default (env_OPENAI_API_KEY env) "".

(** An incoming request: the [X-Twilio-Signature] header if it is sent,
    and the body as the parsers left it ([None]: no body was parsed). *)
Record Request : Type := mkRequest {
  req_signature : option string;
  req_body : option (gmap string jsval)
}.

(** [req.body?.k] *)
Definition body_get (req : Request) (k : string) : jsval :=
  match req_body req with
  | Some m => default JUndef (m !! k)
  | None => JUndef
  end.

(** What a handler sends: the status, the media type it sets with
    [res.type] (or that [res.json] implies), and the body. *)
Inductive payload : Type :=
| Text (s : string)
| Json (v : jsval).

Record Response : Type := mkResp {
  resp_status : Z;
  resp_type : option string;
  resp_body : payload
}.

(** [res.status(code).json({ error: msg })] *)
Definition json_error (code : Z) (msg : string) : Response :=
  {| resp_status := code;
     resp_type := Some "application/json";
     resp_body := Json (JObj [("error", JStr msg)]) |}.

(** The object a script tool returns: [{success: true, ...}] or
    [{success: false, error}]. *)
Inductive tool_result (A : Type) : Type :=
| Success (a : A)
| Failure (error : string).
Arguments Success {A} a.
Arguments Failure {A} error.

Definition success {A} (r : tool_result A) : bool :=
  match r with
  | Success _ => true
  | Failure _ => false
  end.

(** [error instanceof Error ? error.message : 'Unknown error'] *)
Definition error_text (e : exn) : string :=
  match e with
  | JsError _ message => message
  | NonError _ => "Unknown error"
  end.

Record script_info : Type := mkInfo {
  script : ScriptTool.Script;
  guidance : string
}.

Section WithPlatform.
Context `{Platform}.

(** *** Request-signature validation *)

Definition params_of (req : Request) : gmap string jsval :=
  default ∅ (req_body req).

(** [Object.keys(params).sort().reduce((acc, k) => (acc[k] = params[k], acc), {})] *)
Definition sorted_params (params : gmap string jsval) : obj :=
  fold_left (fun acc k => obj_set acc k (default JUndef (params !! k)))
            (Object_keys_sorted params) [].

Definition signed_entries (params : gmap string jsval)
  : list (string * jsval) :=
  Object_entries (sorted_params params).

Definition key_value (kv : string * jsval) : string :=
  fst kv +:+ toString (snd kv).

Definition signed_data (env : Env) (req : Request) : string :=
  let url := PUBLIC_URL env +:+ "/twilio/voice" in
  url +:+ join "" (List.map key_value (signed_entries (params_of req))).

Definition validateTwilioRequest (env : Env) (req : Request) : outcome bool :=
  match env_TWILIO_AUTH_TOKEN env with
  | None => Return true
  | Some token =>
      if String.eqb token "" then Return true
      else
        let signature := or_default (req_signature req) "" in
        let computed := hmac_sha1_base64 token (signed_data env req) in
        timingSafeEqual signature computed
  end.

(** *** POST /twilio/voice *)

Definition wsUrl (env : Env) : string :=
  replace (PUBLIC_URL env) "http" "ws" +:+ "/twilio/stream".

(** The TwiML template up to the hole for the stream URL, and after it. *)
Definition twiml_head : string :=
  "<?xml version=" +:+ dq +:+ "1.0" +:+ dq +:+ " encoding=" +:+ dq
    +:+ "UTF-8" +:+ dq +:+ "?>" +:+ nl
  +:+ "    <Response>" +:+ nl
  +:+ "      <Say>Connecting you to the assistant.</Say>" +:+ nl
  +:+ "      <Start>" +:+ nl
  +:+ "        <Stream url=" +:+ dq.

Definition twiml_tail : string :=
  dq +:+ " />" +:+ nl
  +:+ "      </Start>" +:+ nl
  +:+ "      <Pause length=" +:+ dq +:+ "60" +:+ dq +:+ " />" +:+ nl
  +:+ "    </Response>".

Definition twiml (env : Env) : string :=
  twiml_head +:+ wsUrl env +:+ twiml_tail.

Definition twilio_voice (env : Env) (req : Request) : Response :=
  {| resp_status := 200;
     resp_type := Some "text/xml";
     resp_body := Text (twiml env) |}.

(** *** POST /realtime/sdp *)

Definition sdp_request (env : Env) (sdpOffer : string) : fetch_request :=
  {| fetch_url :=
       "https://api.openai.com/v1/realtime?model=gpt-4o-realtime-preview-2024-12-17";
     fetch_method := "POST";
     fetch_headers :=
       [("Authorization", "Bearer " +:+ OPENAI_API_KEY env);
        ("Content-Type", "application/sdp");
        ("OpenAI-Beta", "realtime=v1")];
     fetch_body := Some sdpOffer |}.

(** [String(req.body?.sdp || '')] *)
Definition sdp_offer (req : Request) : string :=
  toString (or_else (body_get req "sdp") (JStr "")).

(** The handler gives its response and the requests it sent upstream. *)
Definition realtime_sdp (env : Env) (fetch : fetcher unit) (req : Request)
  : Response * list fetch_request :=
  let sdpOffer := sdp_offer req in
  if String.eqb sdpOffer "" then (json_error 400 "Missing SDP", [])
  else if String.eqb (OPENAI_API_KEY env) ""
  then (json_error 500 "Server missing OPENAI_API_KEY", [])
  else
    let rq := sdp_request env sdpOffer in
    (try_catch
       (bind (fetch rq) (fun rtResp =>
        bind (text rtResp) (fun sdpAnswer =>
          if negb (ok rtResp)
          then Return {| resp_status := status rtResp;
                         resp_type := None;
                         resp_body := Text sdpAnswer |}
          else Return {| resp_status := 200;
                         resp_type := Some "application/sdp";
                         resp_body := Text sdpAnswer |})))
       (fun e => json_error 500 "SDP proxy error"),
     [rq]).

(** *** Upgrade of the media stream *)

(** [server.on('upgrade')]: the request is handed to the WebSocket server
    when its URL starts with the stream path, else the socket is
    destroyed. *)
Definition upgrade_accepts (url : option string) : bool :=
  match url with
  | Some u => if String.eqb u "" then false else startsWith u "/twilio/stream"
  | None => false
  end.

(** *** The tools of the agent *)

Definition file_operation (fetch : fetcher jsval)
    (args : FileTool.FileOperationArgs) : outcome jsval :=
  FileTool.fileOperationTool fetch args.

Definition get_script_info (fetch : fetcher ScriptTool.Script)
    (args : ScriptTool.ScriptLoadArgs) : outcome (tool_result script_info) :=
  Return
    (try_catch
       (bind (ScriptTool.scriptLoadTool fetch args) (fun result =>
          Return (Success {| script := fst result;
                             guidance := snd result |})))
       (fun error => Failure (error_text error))).

Definition list_available_scripts (fetch : fetcher (list string))
  : outcome (tool_result (list string)) :=
  Return
    (try_catch
       (bind (ScriptTool.listAvailableScripts fetch) (fun scripts =>
          Return (Success scripts)))
       (fun error => Failure (error_text error))).

End WithPlatform.

End Server.

(** ** The session registry of server.ts *)

Module Sessions.

(** A WebSocket is named by a number. *)
Definition socket : Type := nat.

Record RealtimeAgent : Type := mkAgent {
  agent_name : string;
  agent_instructions : string;
  transportLayer : socket;
  agent_tools : list string
}.

Definition instructions : string :=
  "You are a helpful voice assistant that can guide users through interactive scripts and collaborative activities. You have access to several interactive scripts that provide structured guidance for different activities." +:+ nl
  +:+ nl
  +:+ "Available scripts:" +:+ nl
  +:+ "- blog_writer: Helps create engaging blog posts through conversation" +:+ nl
  +:+ "- brainstorm_session: Facilitates creative idea generation and development  " +:+ nl
  +:+ "- email_workshop: Guides users in crafting effective emails with proper structure" +:+ nl
  +:+ "- improv_game: Play collaborative storytelling games using " +:+ dq +:+ "Yes, and..." +:+ dq +:+ " principles" +:+ nl
  +:+ "- interview_prep: Practice interview scenarios and provide real-time feedback" +:+ nl
  +:+ nl
  +:+ "Use the get_script_info tool to retrieve detailed information about any script, including its stages, prompts, and guidance. This will help you provide structured, script-based assistance to users." +:+ nl
  +:+ nl
  +:+ "You can also use the file_operation tool to create and manage markdown files to capture content during your interactions.".

Definition new_agent (ws : socket) : RealtimeAgent :=
  {| agent_name := "Assistant";
     agent_instructions := instructions;
     transportLayer := ws;
     agent_tools :=
       ["file_operation"; "get_script_info"; "list_available_scripts"] |}.

(** The state the handlers share: the map [activeAgents] and the sockets
    that are open. *)
Record State : Type := mkState {
  activeAgents : gmap string RealtimeAgent;
  open_sockets : gset socket
}.

Definition initial : State :=
  {| activeAgents := ∅; open_sockets := ∅ |}.

(** [ws.close()] *)
Definition ws_close (st : State) (ws : socket) : State :=
  {| activeAgents := activeAgents st;
     open_sockets := open_sockets st ∖ {[ws]} |}.

(** [wss.on('connection', async (ws) => ...)], given the identifier that
    [crypto.randomUUID()] draws and what [agent.connect()] settles to. *)
Definition on_connection (st : State) (ws : socket) (uuid : string)
    (connect : outcome unit) : State :=
  let agent := new_agent ws in
  let st := {| activeAgents := <[uuid := agent]> (activeAgents st);
               open_sockets := open_sockets st |} in
  try_catch (bind connect (fun _ => Return st))
            (fun err => ws_close st ws).

(** What happens to the gateway: a media stream is accepted and its
    handler runs, or an open socket is closed from outside the handler
    (the caller hangs up, the transport layer gives up).  server.ts
    registers no listener for the latter. *)
Inductive event : Type :=
| Connection (ws : socket) (uuid : string) (connect : outcome unit)
| SocketClosed (ws : socket).

Definition step (st : State) (e : event) : State :=
  match e with
  | Connection ws uuid connect =>
      on_connection {| activeAgents := activeAgents st;
                       open_sockets := {[ws]} ∪ open_sockets st |}
                    ws uuid connect
  | SocketClosed ws => ws_close st ws
  end.

Definition run (st : State) (events : list event) : State :=
  fold_left step events st.

(** The invariant the specification asks of the registry: every entry's
    transport is still open. *)
Definition no_entry_outlives_transport (st : State) : Prop :=
  ∀ id agent, activeAgents st !! id = Some agent →
              transportLayer agent ∈ open_sockets st.

End Sessions.

(** ** Vocabulary of the webhook property: XML documents and URLs *)

(** A one-pass recogniser of a fragment of XML 1.0: an optional XML
    declaration at the very start, one root element, start, end and
    empty-element tags, attributes in double quotes, character data.
    Comments, CDATA sections, references, processing instructions after
    the start and names outside ASCII are refused, so what the recogniser
    accepts is well formed. *)
Module Xml.

Definition attributes : Type := list (string * string).
Definition element : Type := (string * attributes)%type.

Definition code (c : ascii) : N := N_of_ascii c.

Definition is_space (c : ascii) : bool :=
  let n := code c in
  ((n =? 32) || (n =? 9) || (n =? 10) || (n =? 13))%N.

Definition is_letter (c : ascii) : bool :=
  let n := code c in
  (((65 <=? n) && (n <=? 90)) || ((97 <=? n) && (n <=? 122)))%N.

Definition is_digit (c : ascii) : bool :=
  let n := code c in ((48 <=? n) && (n <=? 57))%N.

Definition is_name_start (c : ascii) : bool :=
  is_letter c || Ascii.eqb c "_"%char || Ascii.eqb c ":"%char.

Definition is_name_char (c : ascii) : bool :=
  is_name_start c || is_digit c || Ascii.eqb c "-"%char || Ascii.eqb c "."%char.

Definition snoc (s : string) (c : ascii) : string :=
  s +:+ String c EmptyString.

Inductive mode : Type :=
| Start
| Content
| Lt (first : bool)
| OpenName (n : string)
| InTag (n : string) (a : attributes) (spaced : bool)
| AttrName (n : string) (a : attributes) (k : string)
| AttrEq (n : string) (a : attributes) (k : string)
| AttrValue (n : string) (a : attributes) (k : string) (v : string)
| Slash (n : string) (a : attributes)
| DeclEnd (a : attributes)
| CloseName (n : string)
| CloseEnd (n : string).

Record state : Type := mkXml {
  st_mode : mode;
  st_open : list string;
  st_seen : list element;
  st_root_closed : bool
}.

Definition initial : state :=
  {| st_mode := Start; st_open := []; st_seen := [];
     st_root_closed := false |}.

Definition with_mode (st : state) (m : mode) : state :=
  {| st_mode := m; st_open := st_open st; st_seen := st_seen st;
     st_root_closed := st_root_closed st |}.

Definition is_decl (n : string) : bool := String.eqb n "?xml".

(** A name that starts with a question mark is no element name. *)
Definition decl_like (n : string) : bool := String.prefix "?" n.

(** The pseudo-attributes an XML declaration may carry, in order. *)
Definition decl_attributes_ok (a : attributes) : bool :=
  let names := List.map fst a in
  existsb (fun l => if decide (names = l) then true else false)
    [["version"]; ["version"; "encoding"]; ["version"; "standalone"];
     ["version"; "encoding"; "standalone"]].

(** A start tag ends: the element is recorded and opened. *)
Definition open_element (st : state) (n : string) (a : attributes)
  : option state :=
  if decl_like n then None
  else Some {| st_mode := Content;
               st_open := n :: st_open st;
               st_seen := st_seen st ++ [(n, a)];
               st_root_closed := st_root_closed st |}.

(** An empty-element tag ends: the element is recorded. *)
Definition empty_element (st : state) (n : string) (a : attributes)
  : option state :=
  if decl_like n then None
  else Some {| st_mode := Content;
               st_open := st_open st;
               st_seen := st_seen st ++ [(n, a)];
               st_root_closed :=
                 match st_open st with [] => true | _ => st_root_closed st end |}.

(** An end tag ends: it must close the innermost open element. *)
Definition close_element (st : state) (n : string) : option state :=
  match st_open st with
  | m :: rest =>
      if String.eqb m n
      then Some {| st_mode := Content;
                   st_open := rest;
                   st_seen := st_seen st;
                   st_root_closed :=
                     match rest with [] => true | _ => st_root_closed st end |}
      else None
  | [] => None
  end.

Definition step (st : state) (c : ascii) : option state :=
  match st_mode st with
  | Start =>
      if Ascii.eqb c "<"%char then Some (with_mode st (Lt true))
      else if is_space c then Some (with_mode st Content)
      else None
  | Content =>
      if Ascii.eqb c "<"%char then Some (with_mode st (Lt false))
      else if Ascii.eqb c "&"%char || Ascii.eqb c ">"%char then None
      else match st_open st with
           | [] => if is_space c then Some st else None
           | _ => Some st
           end
  | Lt first =>
      if Ascii.eqb c "/"%char then Some (with_mode st (CloseName EmptyString))
      else if Ascii.eqb c "?"%char
      then if first then Some (with_mode st (OpenName "?")) else None
      else if is_name_start c
      then if st_root_closed st then None
           else Some (with_mode st (OpenName (String c EmptyString)))
      else None
  | OpenName n =>
      if is_name_char c then Some (with_mode st (OpenName (snoc n c)))
      else if is_space c then Some (with_mode st (InTag n [] true))
      else if Ascii.eqb c ">"%char then open_element st n []
      else if Ascii.eqb c "/"%char then Some (with_mode st (Slash n []))
      else None
  | InTag n a spaced =>
      if is_space c then Some (with_mode st (InTag n a true))
      else if Ascii.eqb c ">"%char then open_element st n a
      else if Ascii.eqb c "/"%char then Some (with_mode st (Slash n a))
      else if Ascii.eqb c "?"%char
      then if is_decl n then Some (with_mode st (DeclEnd a)) else None
      else if is_name_start c && spaced
      then Some (with_mode st (AttrName n a (String c EmptyString)))
      else None
  | AttrName n a k =>
      if is_name_char c then Some (with_mode st (AttrName n a (snoc k c)))
      else if Ascii.eqb c "="%char
      then if existsb (fun kv => String.eqb (fst kv) k) a then None
           else Some (with_mode st (AttrEq n a k))
      else None
  | AttrEq n a k =>
      if Ascii.eqb c (ascii_of_nat 34)
      then Some (with_mode st (AttrValue n a k EmptyString))
      else None
  | AttrValue n a k v =>
      if Ascii.eqb c (ascii_of_nat 34)
      then Some (with_mode st (InTag n (a ++ [(k, v)]) false))
      else if Ascii.eqb c "<"%char || Ascii.eqb c "&"%char then None
      else Some (with_mode st (AttrValue n a k (snoc v c)))
  | Slash n a =>
      if Ascii.eqb c ">"%char then empty_element st n a else None
  | DeclEnd a =>
      if Ascii.eqb c ">"%char && decl_attributes_ok a
      then Some (with_mode st Content)
      else None
  | CloseName n =>
      if is_name_char c then Some (with_mode st (CloseName (snoc n c)))
      else if is_space c
      then if String.eqb n "" then None else Some (with_mode st (CloseEnd n))
      else if Ascii.eqb c ">"%char then close_element st n
      else None
  | CloseEnd n =>
      if is_space c then Some st
      else if Ascii.eqb c ">"%char then close_element st n
      else None
  end.

Fixpoint feed (st : state) (s : string) : option state :=
  match s with
  | EmptyString => Some st
  | String c s' =>
      match step st c with
      | Some st' => feed st' s'
      | None => None
      end
  end.

Definition accepting (st : state) : bool :=
  match st_mode st, st_open st with
  | Content, [] => st_root_closed st
  | _, _ => false
  end.

(** The elements of a well-formed document, in document order, each with
    its attributes; [None] when the text is not accepted. *)
Definition elements (doc : string) : option (list element) :=
  match feed initial doc with
  | Some st => if accepting st then Some (st_seen st) else None
  | None => None
  end.

Definition attribute (k : string) (a : attributes) : option string :=
  snd <$> List.find (fun kv => String.eqb (fst kv) k) a.

(** The characters an attribute value in double quotes may hold. *)
Definition value_char (c : ascii) : bool :=
  negb (Ascii.eqb c (ascii_of_nat 34) || Ascii.eqb c "<"%char
        || Ascii.eqb c "&"%char).

End Xml.

(** A URL of the shape [scheme://authority path]. *)
Module Url.

Record url : Type := mkUrl {
  scheme : string;
  authority : string;
  path : string
}.

(** [cut sep s]: the text before and after the first [sep] in [s]. *)
Fixpoint cut (sep s : string) : option (string * string) :=
  match strip_prefix sep s with
  | Some rest => Some (EmptyString, rest)
  | None =>
      match s with
      | EmptyString => None
      | String c s' =>
          match cut sep s' with
          | Some (before, after) => Some (String c before, after)
          | None => None
          end
      end
  end.

(** The authority ends at the first slash; the path starts there. *)
Fixpoint split_authority (s : string) : string * string :=
  match s with
  | EmptyString => (EmptyString, EmptyString)
  | String c s' =>
      if Ascii.eqb c "/"%char then (EmptyString, s)
      else let '(a, p) := split_authority s' in (String c a, p)
  end.

Definition parse (s : string) : option url :=
  match cut "://" s with
  | Some (sch, rest) =>
      if String.eqb sch "" then None
      else let '(a, p) := split_authority rest in
           Some {| scheme := sch; authority := a; path := p |}
  | None => None
  end.

(** The characters of a host name with an optional port. *)
Definition authority_char (c : ascii) : bool :=
  Xml.is_letter c || Xml.is_digit c || Ascii.eqb c "."%char
  || Ascii.eqb c "-"%char || Ascii.eqb c ":"%char.

Fixpoint all_chars (p : ascii -> bool) (s : string) : bool :=
  match s with
  | EmptyString => true
  | String c s' => p c && all_chars p s'
  end.

End Url.

(** ** Concrete inputs *)

Module Samples.

(** A stand-in platform for evaluating the definitions: upper case on
    ASCII letters, a fixed rendering of error details, and a keyed digest
    that is the key followed by the data. *)
Definition ascii_upper (c : ascii) : ascii :=
  let n := N_of_ascii c in
  if ((97 <=? n) && (n <=? 122))%N then ascii_of_N (n - 32) else c.

Fixpoint upper (s : string) : string :=
  match s with
  | EmptyString => EmptyString
  | String c s' => String (ascii_upper c) (upper s')
  end.

Definition render_detail (v : jsval) : string :=
  match v with
  | JObj [] => "{}"
  | JObj ((k, v) :: _) => "{" +:+ dq +:+ k +:+ dq +:+ ":...}"
  | _ => toString v
  end.

#[local] Instance platform : Platform :=
  {| JSON_stringify := render_detail;
     toUpperCase := upper;
     hmac_sha1_base64 := fun key data => key +:+ "|" +:+ data |}.

Definition env_dev : Server.Env :=
  {| Server.env_PORT := None;
     Server.env_PUBLIC_URL := None;
     Server.env_OPENAI_API_KEY := None;
     Server.env_TWILIO_AUTH_TOKEN := None |}.

Definition env_prod : Server.Env :=
  {| Server.env_PORT := Some 3000;
     Server.env_PUBLIC_URL := Some "https://gateway.example.com";
     Server.env_OPENAI_API_KEY := Some "sk-test";
     Server.env_TWILIO_AUTH_TOKEN := Some "secret" |}.

(** The same deployment with the public URL written with a final slash. *)
Definition env_slash : Server.Env :=
  {| Server.env_PORT := Some 3000;
     Server.env_PUBLIC_URL := Some "https://gateway.example.com/";
     Server.env_OPENAI_API_KEY := Some "sk-test";
     Server.env_TWILIO_AUTH_TOKEN := Some "secret" |}.

Definition call_params : gmap string jsval :=
  list_to_map [("To", JStr "+15550100"); ("CallSid", JStr "CA123");
               ("From", JStr "+15550199")].

Definition req_empty : Server.Request :=
  {| Server.req_signature := None; Server.req_body := None |}.

Definition req_call : Server.Request :=
  {| Server.req_signature := Some "bogus";
     Server.req_body := Some call_params |}.

Definition req_call_signed : Server.Request :=
  {| Server.req_signature :=
       Some "secret|https://gateway.example.com/twilio/voiceCallSidCA123From+15550199To+15550100";
     Server.req_body := Some call_params |}.

Definition offer : string := "v=0 o=- 46117317 2 IN IP4 127.0.0.1".
Definition answer : string := "v=0 o=- 86420 2 IN IP4 203.0.113.7".

Definition req_offer : Server.Request :=
  {| Server.req_signature := None;
     Server.req_body := Some {[ "sdp" := JStr offer ]} |}.

(** The signaling endpoint answers with [code] and [body]. *)
Definition upstream (code : Z) (body : string) : fetcher unit :=
  fun _ => Return {| status := code; json := Return tt;
                     json_any := Throw (JsError "SyntaxError" "Unexpected token");
                     text := Return body |}.

(** A backend without the document or script asked for: 404 and a
    detail. *)
Definition not_found {A : Type} (detail : string) : fetcher A :=
  fun _ => Return {| status := 404;
                     json := Throw (JsError "TypeError" "not read");
                     json_any := Return (JObj [("detail", JStr detail)]);
                     text := Return detail |}.

Definition read_missing : FileTool.FileOperationArgs :=
  {| FileTool.operation := FileTool.OpRead;
     FileTool.filename := Some "missing.md";
     FileTool.content := None;
     FileTool.line_number := None;
     FileTool.pattern := None;
     FileTool.replacement := None |}.

Definition blog_writer : ScriptTool.Script :=
  {| ScriptTool.name := "blog_writer";
     ScriptTool.description := "Helps create engaging blog posts";
     ScriptTool.stages :=
       [ {| ScriptTool.stage_name := "topic";
            ScriptTool.stage_prompt := "Find the topic";
            ScriptTool.stage_questions := Some ["What is it about?"; "Who reads it?"];
            ScriptTool.stage_actions := None |};
         {| ScriptTool.stage_name := "draft";
            ScriptTool.stage_prompt := "Write the draft";
            ScriptTool.stage_questions := Some [];
            ScriptTool.stage_actions := Some ["create_file"] |} ];
     ScriptTool.output_format := Some "markdown";
     ScriptTool.interactive_elements := Some ["polls"] |}.

(** A backend that holds one script under every name. *)
Definition catalog (s : ScriptTool.Script) : fetcher ScriptTool.Script :=
  fun _ => Return {| status := 200;
                     json := Return s;
                     json_any := Return JNull;
                     text := Return "" |}.

End Samples.

(** ** The properties, as predicates *)

Module Claims.

Import Server.

(** Round-trip opacity of the SDP relay for the offer [offer]: the one
    request sent upstream carries [offer] as its body, and whatever the
    upstream answers comes back with its body and its status. *)
Definition sdp_round_trip_opaque (env : Env) (fetch : fetcher unit)
    (req : Request) (offer : string) : Prop :=
  ∀ up answer,
    fetch (sdp_request env offer) = Return up →
    text up = Return answer →
    fetch_body <$> snd (realtime_sdp env fetch req) = [Some offer]
    ∧ resp_body (fst (realtime_sdp env fetch req)) = Text answer
    ∧ resp_status (fst (realtime_sdp env fetch req)) = status up.

(** The webhook response is a well-formed document with a [Stream]
    element whose [url] has scheme [ws] or [wss], the authority of the
    public URL and exactly the media-stream path. *)
Definition stream_matches_public_url (env : Env) (resp : Response) : Prop :=
  ∃ doc elems attrs u target pub,
    resp_body resp = Text doc
    ∧ Xml.elements doc = Some elems
    ∧ In ("Stream", attrs) elems
    ∧ Xml.attribute "url" attrs = Some u
    ∧ Url.parse u = Some target
    ∧ (Url.scheme target = "ws" ∨ Url.scheme target = "wss")
    ∧ Url.parse (PUBLIC_URL env) = Some pub
    ∧ Url.authority target = Url.authority pub
    ∧ Url.path target = "/twilio/stream".

(** The environment [env] with another value of [TWILIO_AUTH_TOKEN]. *)
Definition with_token (env : Env) (token : option string) : Env :=
  {| env_PORT := env_PORT env;
     env_PUBLIC_URL := env_PUBLIC_URL env;
     env_OPENAI_API_KEY := env_OPENAI_API_KEY env;
     env_TWILIO_AUTH_TOKEN := token |}.

(** The order in which the own keys of an object are listed when they
    were created in ascending order of their code units: array indices
    first, by their value, then the other keys by their code units. *)
Definition key_le (a b : string) : Prop :=
  match index_value a, index_value b with
  | Some i, Some j => (i <= j)%N
  | Some _, None => True
  | None, Some _ => False
  | None, None => String.le a b
  end.

Definition entry_le (a b : string * jsval) : Prop := key_le (fst a) (fst b).

(** The elements of the TwiML whose stream URL is [u]. *)
Definition twiml_elements (u : string) : list Xml.element :=
  [("Response", []); ("Say", []); ("Start", []);
   ("Stream", [("url", u)]); ("Pause", [("length", "60")])].

(** [part] occurs in [whole]. *)
Definition occurs_in (part whole : string) : Prop :=
  ∃ before after, whole = before +:+ part +:+ after.

Section WithPlatform.
Context `{Platform}.

(** The text [text] covers the descriptor [script]: its name and
    description; for each stage its number, upper-cased name and prompt,
    and its questions and actions where it has some; the output format
    and the interactive elements where the descriptor has them. *)
Definition guidance_covers (script : ScriptTool.Script) (text : string)
  : Prop :=
  occurs_in (ScriptTool.name script) text
  ∧ occurs_in (ScriptTool.description script) text
  ∧ (∀ index stage,
       ScriptTool.stages script !! index = Some stage →
       occurs_in (num_to_string (Z.of_nat index + 1) +:+ ". **"
                    +:+ toUpperCase (ScriptTool.stage_name stage) +:+ "**: "
                    +:+ ScriptTool.stage_prompt stage +:+ nl) text
       ∧ (∀ q qs, ScriptTool.stage_questions stage = Some (q :: qs) →
            occurs_in ("   - Key questions: " +:+ join ", " (q :: qs) +:+ nl)
                      text)
       ∧ (∀ a acts, ScriptTool.stage_actions stage = Some (a :: acts) →
            occurs_in ("   - Available actions: " +:+ join ", " (a :: acts)
                         +:+ nl) text))
  ∧ (∀ fmt, ScriptTool.output_format script = Some fmt → fmt ≠ "" →
       occurs_in (nl +:+ "### 📄 OUTPUT FORMAT: " +:+ fmt +:+ nl) text)
  ∧ (∀ e els, ScriptTool.interactive_elements script = Some (e :: els) →
       occurs_in (nl +:+ "### 🎮 INTERACTIVE ELEMENTS: "
                    +:+ join ", " (e :: els) +:+ nl) text).

(** The texts of the stages [l], numbered from [index], one after the
    other. *)
Fixpoint stages_text (index : nat) (l : list ScriptTool.Stage) : string :=
  match l with
  | [] => ""
  | stage :: l' =>
      ScriptTool.stage_text stage index +:+ stages_text (S index) l'
  end.

End WithPlatform.

End Claims.

(** ** The frame logger of the gateway variant with logging

    The variant of server.ts kept in [backend/setup_ngrok.sh] registers a
    listener on every media-stream socket that logs the control events of
    the stream.  [JSON.parse] is passed as an argument; what [console.log]
    prints is the list of lines returned. *)

Module StreamLog.




End StreamLog.

(** ** Further notions used in the statements *)

Module Notions.

(** The request [req] without a form parameter named [__proto__]. *)
Definition without_proto (req : Server.Request) : Server.Request :=
  {| Server.req_signature := Server.req_signature req;
     Server.req_body := delete "__proto__" <$> Server.req_body req |}.

(** A request whose body holds the one form parameter [k] with the text
    [v]. *)
Definition one_param (signature : option string) (k v : string)
  : Server.Request :=
  {| Server.req_signature := signature;
     Server.req_body := Some {[ k := JStr v ]} |}.

(** The identifiers drawn by the connections among [events]. *)
Fixpoint connection_ids (events : list Sessions.event) : list string :=
  match events with
  | [] => []
  | Sessions.Connection _ uuid _ :: events' => uuid :: connection_ids events'
  | Sessions.SocketClosed _ :: events' => connection_ids events'
  end.

(** An optional list that is empty counts as absent, and so does an
    optional string that is empty. *)
Definition drop_empty_stage (stage : ScriptTool.Stage) : ScriptTool.Stage :=
  {| ScriptTool.stage_name := ScriptTool.stage_name stage;
     ScriptTool.stage_prompt := ScriptTool.stage_prompt stage;
     ScriptTool.stage_questions :=
       ScriptTool.nonempty_list (ScriptTool.stage_questions stage);
     ScriptTool.stage_actions :=
       ScriptTool.nonempty_list (ScriptTool.stage_actions stage) |}.

Definition drop_empty (script : ScriptTool.Script) : ScriptTool.Script :=
  {| ScriptTool.name := ScriptTool.name script;
     ScriptTool.description := ScriptTool.description script;
     ScriptTool.stages := drop_empty_stage <$> ScriptTool.stages script;
     ScriptTool.output_format :=
       ScriptTool.nonempty_string (ScriptTool.output_format script);
     ScriptTool.interactive_elements :=
       ScriptTool.nonempty_list (ScriptTool.interactive_elements script) |}.

(** Text that is ASCII: every unit is below 128. *)
Fixpoint ascii_only (s : string) : bool :=
  match s with
  | EmptyString => true
  | String c s' => (N_of_ascii c <? 128)%N && ascii_only s'
  end.

(** A value as the form decoder leaves it: a string, or an array of
    strings for a name given more than once. *)
Definition form_value (v : jsval) : bool :=
  match v with
  | JStr _ => true
  | JArr items =>
      forallb (fun x => match x with JStr _ => true | _ => false end) items
  | _ => false
  end.

(** Form parameters with ASCII names. *)
Definition form_params (params : gmap string jsval) : bool :=
  forallb (fun kv => ascii_only (fst kv) && form_value (snd kv))
          (map_to_list params).

(** The form [a=1&10=x&9=y]. *)
Definition index_params : gmap string jsval :=
  list_to_map [("a", JStr "1"); ("10", JStr "x"); ("9", JStr "y")].

(** A media stream is accepted on socket 7 and its model connection
    fails. *)
Definition failed_session : list Sessions.event :=
  [Sessions.Connection 7%nat "0b2c5f0e-6c1d-4c57-9a53-3f1f0a9d2e11"
     (Throw (JsError "Error" "connection refused"))].


End Notions.

(** * Properties *)

Import Server.

(** ** Outcomes and replies *)

Lemma ok_iff {A} (r : response A) : ok r = true ↔ 200 ≤ status r ≤ 299.
Proof. unfold ok. rewrite andb_true_iff, !Z.leb_le. tauto. Qed.

Lemma or_default_empty (v : option string) :
  or_default v "" = "" ↔ v = None ∨ v = Some "".
Proof.
  destruct v as [s|]; simpl.
  - destruct (String.eqb_spec s ""); subst; split; auto.
    + intros ->. now right.
    + intros [?|[=]]; congruence.
  - split; auto.
Qed.

(** ** Signature validation without a token *)

(** C10.  When [TWILIO_AUTH_TOKEN] is unset or empty,
    [validateTwilioRequest] returns [true] for every request: the
    signature is not looked at. *)
Theorem validateTwilioRequest_skipped_without_token
    `{Platform} (env : Env) (req : Request) :
  env_TWILIO_AUTH_TOKEN env = None ∨ env_TWILIO_AUTH_TOKEN env = Some "" →
  validateTwilioRequest env req = Return true.
Proof.
  unfold validateTwilioRequest. intros [-> | ->]; reflexivity.
Qed.

Lemma validateTwilioRequest_skipped_without_token_witness :
  @validateTwilioRequest Samples.platform Samples.env_dev Samples.req_call
  = Return true.
Proof.
  apply (@validateTwilioRequest_skipped_without_token Samples.platform).
  left. reflexivity.
Defined.

(** ** The telephony webhook *)

(** C9.  The response of [POST /twilio/voice] is the same for any two
    requests, whatever their signature header and form parameters, and
    whatever the shared secret is: the handler reads none of them, and it
    answers 200 with the TwiML also where [validateTwilioRequest] would
    refuse the request or throw. *)
Theorem twilio_voice_ignores_request (env : Env) (req1 req2 : Request)
    (token : option string) :
  twilio_voice env req1 = twilio_voice env req2
  ∧ twilio_voice env req1 = twilio_voice (Claims.with_token env token) req2
  ∧ twilio_voice env req1
    = {| resp_status := 200; resp_type := Some "text/xml";
         resp_body := Text (twiml env) |}.
Proof. repeat split. Qed.

(** A request that validation refuses is served like any other. *)
Example twilio_voice_serves_refused_request :
  @validateTwilioRequest Samples.platform Samples.env_prod Samples.req_call
  = Throw (JsError "RangeError" "Input buffers must have the same byte length")
  ∧ resp_status (twilio_voice Samples.env_prod Samples.req_call) = 200.
Proof. split; reflexivity. Qed.

(** ** Tools *)

Lemma fileOperationTool_not_ok `{Platform} (fetch : fetcher jsval)
    (args : FileTool.FileOperationArgs) (res : response jsval) :
  fetch (FileTool.file_operation_request args) = Return res →
  ok res = false →
  file_operation fetch args
  = Throw (JsError "Error"
             ("file_operation failed: " +:+ num_to_string (status res) +:+ " "
                +:+ JSON_stringify (try_catch (json_any res) (fun _ => JObj [])))).
Proof.
  intros Hres Hok. unfold file_operation, FileTool.fileOperationTool.
  rewrite Hres. simpl. rewrite Hok. reflexivity.
Qed.

(** C1.  Reading a document the backend does not have: the accessor
    answers 404 with a detail, and the [file_operation] tool settles to a
    thrown [Error], not to a returned failure result. *)
Theorem file_operation_read_missing_throws `{Platform} :
  file_operation (Samples.not_found "File not found: missing.md")
                 Samples.read_missing
  = Throw (JsError "Error"
             ("file_operation failed: 404 "
                +:+ JSON_stringify
                      (JObj [("detail", JStr "File not found: missing.md")]))).
Proof. reflexivity. Qed.

(** The script tools beside it settle to a returned value on every path. *)
Lemma get_script_info_returns `{Platform} (fetch : fetcher ScriptTool.Script)
    (args : ScriptTool.ScriptLoadArgs) :
  ∃ r, get_script_info fetch args = Return r.
Proof. unfold get_script_info. eauto. Qed.

Lemma list_available_scripts_returns `{Platform}
    (fetch : fetcher (list string)) :
  ∃ r, list_available_scripts fetch = Return r.
Proof. unfold list_available_scripts. eauto. Qed.

Lemma occurs_in_middle (a b c : string) : Claims.occurs_in b (a +:+ b +:+ c).
Proof. exists a, c. reflexivity. Qed.

(** C5.  When the catalog answers the lookup of a script name with a
    status that is not ok, [get_script_info] returns
    [{success: false, error}] and the error text names the script asked
    for; nothing is thrown. *)
Theorem get_script_info_missing_script `{Platform}
    (fetch : fetcher ScriptTool.Script) (args : ScriptTool.ScriptLoadArgs)
    (res : response ScriptTool.Script) :
  fetch (ScriptTool.script_request args) = Return res →
  ok res = false →
  ∃ error,
    get_script_info fetch args = Return (Failure error)
    ∧ error = "Failed to load script '" +:+ ScriptTool.script_name args
                +:+ "': " +:+ num_to_string (status res) +:+ " "
                +:+ JSON_stringify (try_catch (json_any res) (fun _ => JObj []))
    ∧ Claims.occurs_in (ScriptTool.script_name args) error.
Proof.
  intros Hres Hok. eexists. split; [|split].
  - unfold get_script_info, ScriptTool.scriptLoadTool.
    rewrite Hres. simpl. rewrite Hok. simpl. reflexivity.
  - reflexivity.
  - apply occurs_in_middle.
Qed.

Lemma get_script_info_missing_script_witness :
  ∃ error,
    @get_script_info Samples.platform (Samples.not_found "Script not found")
      {| ScriptTool.script_name := "poetry_slam" |}
    = Return (Failure error)
    ∧ error = "Failed to load script 'poetry_slam': 404 {" +:+ dq +:+ "detail"
                +:+ dq +:+ ":...}"
    ∧ Claims.occurs_in "poetry_slam" error.
Proof.
  destruct (@get_script_info_missing_script Samples.platform
              (Samples.not_found "Script not found")
              {| ScriptTool.script_name := "poetry_slam" |} _
              eq_refl eq_refl) as (error & Hret & Herr & Hocc).
  exists error. split; [exact Hret|]. split; [exact Herr|exact Hocc].
Defined.

(** ** The SDP relay *)

Lemma sdp_offer_string (req : Request) (offer : string) :
  body_get req "sdp" = JStr offer → sdp_offer req = offer.
Proof.
  unfold sdp_offer, or_else. intros ->. simpl.
  destruct (String.eqb_spec offer ""); subst; reflexivity.
Qed.

Lemma sdp_offer_missing (req : Request) :
  truthy (body_get req "sdp") = false → sdp_offer req = "".
Proof. unfold sdp_offer, or_else. intros ->. reflexivity. Qed.

Lemma body_get_no_body (req : Request) (k : string) :
  req_body req = None → body_get req k = JUndef.
Proof. unfold body_get. intros ->. reflexivity. Qed.

Lemma body_get_no_property (req : Request) (m : gmap string jsval) (k : string) :
  req_body req = Some m → m !! k = None → body_get req k = JUndef.
Proof. unfold body_get. intros -> ->. reflexivity. Qed.

Lemma eqb_false_of_ne (s t : string) : s ≠ t → String.eqb s t = false.
Proof. apply String.eqb_neq. Qed.

Lemma realtime_sdp_forwarded (env : Env) (fetch : fetcher unit) (req : Request)
    (up : response unit) (answer : string) :
  sdp_offer req ≠ "" →
  OPENAI_API_KEY env ≠ "" →
  fetch (sdp_request env (sdp_offer req)) = Return up →
  text up = Return answer →
  realtime_sdp env fetch req
  = (if ok up
     then {| resp_status := 200; resp_type := Some "application/sdp";
             resp_body := Text answer |}
     else {| resp_status := status up; resp_type := None;
             resp_body := Text answer |},
     [sdp_request env (sdp_offer req)]).
Proof.
  intros Hoffer Hkey Hup Htext. unfold realtime_sdp.
  rewrite (eqb_false_of_ne _ _ Hoffer), (eqb_false_of_ne _ _ Hkey).
  rewrite Hup. simpl. rewrite Htext. simpl.
  destruct (ok up); reflexivity.
Qed.

(** C2, as the code has it.  For every non-empty SDP offer posted while
    the credential is configured, the relay sends one upstream request
    whose body is the offer, unchanged; when the upstream answers, the
    answer body comes back unchanged; the status that comes back is the
    upstream's when the upstream status is not ok, and 200 with the media
    type [application/sdp] when it is ok. *)
Theorem sdp_relay_forwards_verbatim (env : Env) (fetch : fetcher unit)
    (req : Request) (offer : string) (up : response unit) (answer : string) :
  body_get req "sdp" = JStr offer →
  offer ≠ "" →
  OPENAI_API_KEY env ≠ "" →
  fetch (sdp_request env offer) = Return up →
  text up = Return answer →
  snd (realtime_sdp env fetch req) = [sdp_request env offer]
  ∧ fetch_body (sdp_request env offer) = Some offer
  ∧ resp_body (fst (realtime_sdp env fetch req)) = Text answer
  ∧ resp_status (fst (realtime_sdp env fetch req))
    = (if ok up then 200 else status up)
  ∧ (ok up = true →
     resp_type (fst (realtime_sdp env fetch req)) = Some "application/sdp").
Proof.
  intros Hsdp Hne Hkey Hup Htext.
  pose proof (sdp_offer_string _ _ Hsdp) as Hoffer.
  rewrite (realtime_sdp_forwarded env fetch req up answer);
    rewrite ?Hoffer; try assumption.
  repeat split; destruct (ok up); try reflexivity; discriminate.
Qed.

Lemma sdp_relay_forwards_verbatim_witness :
  snd (realtime_sdp Samples.env_prod (Samples.upstream 201 Samples.answer)
         Samples.req_offer)
  = [sdp_request Samples.env_prod Samples.offer]
  ∧ resp_body (fst (realtime_sdp Samples.env_prod
                      (Samples.upstream 201 Samples.answer) Samples.req_offer))
    = Text Samples.answer
  ∧ resp_status (fst (realtime_sdp Samples.env_prod
                        (Samples.upstream 201 Samples.answer) Samples.req_offer))
    = 200.
Proof.
  destruct (sdp_relay_forwards_verbatim Samples.env_prod
              (Samples.upstream 201 Samples.answer) Samples.req_offer
              Samples.offer
              {| status := 201; json := Return tt;
                 json_any := Throw (JsError "SyntaxError" "Unexpected token");
                 text := Return Samples.answer |}
              Samples.answer)
    as (Hsent & _ & Hbody & Hstatus & _).
  - reflexivity.
  - discriminate.
  - discriminate.
  - reflexivity.
  - reflexivity.
  - split; [exact Hsent|]. split; [exact Hbody|exact Hstatus].
Defined.

(** C2, as stated, fails: an upstream answer with status 201 comes back
    with status 200. *)
Lemma sdp_relay_status_not_verbatim :
  ¬ Claims.sdp_round_trip_opaque Samples.env_prod
      (Samples.upstream 201 Samples.answer) Samples.req_offer Samples.offer.
Proof.
  intros Hclaim.
  destruct (Hclaim _ Samples.answer eq_refl eq_refl) as (_ & _ & Hstatus).
  vm_compute in Hstatus. discriminate.
Qed.

(** C3.  The relay answers 400 and sends nothing upstream when the SDP is
    missing (no body, no [sdp] property, or a falsy one: the offer read is
    empty); it answers 500, a configuration error, and sends nothing
    upstream when an offer text is there and the credential is absent
    (with the credential absent every request is rejected and nothing is
    sent); and when the upstream answers an offer text with a status that
    is not ok, that status and body go back to the caller as they are. *)
Theorem sdp_relay_error_conditions (env : Env) (fetch : fetcher unit)
    (req : Request) :
  (truthy (body_get req "sdp") = false → sdp_offer req = "")
  ∧ (sdp_offer req = "" →
     realtime_sdp env fetch req = (json_error 400 "Missing SDP", []))
  ∧ (∀ offer,
       body_get req "sdp" = JStr offer → offer ≠ "" →
       OPENAI_API_KEY env = "" →
       realtime_sdp env fetch req
       = (json_error 500 "Server missing OPENAI_API_KEY", []))
  ∧ (OPENAI_API_KEY env = "" →
     snd (realtime_sdp env fetch req) = []
     ∧ 400 ≤ resp_status (fst (realtime_sdp env fetch req)) ≤ 500)
  ∧ (∀ offer up answer,
       body_get req "sdp" = JStr offer → offer ≠ "" →
       OPENAI_API_KEY env ≠ "" →
       fetch (sdp_request env offer) = Return up →
       text up = Return answer →
       ok up = false →
       realtime_sdp env fetch req
       = ({| resp_status := status up; resp_type := None;
             resp_body := Text answer |},
          [sdp_request env offer])).
Proof.
  split; [apply sdp_offer_missing|]. split; [|split; [|split]].
  - intros Hmissing. unfold realtime_sdp.
    rewrite Hmissing. reflexivity.
  - intros offer Hsdp Hoffer Hkey. unfold realtime_sdp.
    rewrite (sdp_offer_string _ _ Hsdp).
    rewrite (eqb_false_of_ne _ _ Hoffer), Hkey. reflexivity.
  - intros Hkey. unfold realtime_sdp. rewrite Hkey.
    destruct (String.eqb (sdp_offer req) ""); simpl; split; try reflexivity; lia.
  - intros offer up answer Hsdp Hoffer Hkey Hup Htext Hok.
    pose proof (sdp_offer_string _ _ Hsdp) as Hread.
    rewrite (realtime_sdp_forwarded env fetch req up answer);
      rewrite ?Hread; try assumption.
    rewrite Hok. reflexivity.
Qed.

Lemma sdp_relay_error_conditions_witness :
  realtime_sdp Samples.env_prod (Samples.upstream 200 Samples.answer)
    Samples.req_empty
  = (json_error 400 "Missing SDP", [])
  ∧ realtime_sdp Samples.env_dev (Samples.upstream 200 Samples.answer)
      Samples.req_offer
    = (json_error 500 "Server missing OPENAI_API_KEY", [])
  ∧ realtime_sdp Samples.env_prod (Samples.upstream 503 "overloaded")
      Samples.req_offer
    = ({| resp_status := 503; resp_type := None;
          resp_body := Text "overloaded" |},
       [sdp_request Samples.env_prod Samples.offer]).
Proof.
  split; [|split].
  - apply (proj2 (sdp_relay_error_conditions Samples.env_prod
             (Samples.upstream 200 Samples.answer) Samples.req_empty)).
    apply (proj1 (sdp_relay_error_conditions Samples.env_prod
             (Samples.upstream 200 Samples.answer) Samples.req_empty)).
    reflexivity.
  - apply (proj1 (proj2 (proj2 (sdp_relay_error_conditions Samples.env_dev
             (Samples.upstream 200 Samples.answer) Samples.req_offer)))
             Samples.offer).
    + reflexivity.
    + discriminate.
    + reflexivity.
  - apply (proj2 (proj2 (proj2 (proj2 (sdp_relay_error_conditions
             Samples.env_prod
             (Samples.upstream 503 "overloaded") Samples.req_offer))))
             Samples.offer
             {| status := 503; json := Return tt;
                json_any := Throw (JsError "SyntaxError" "Unexpected token");
                text := Return "overloaded" |} "overloaded").
    + reflexivity.
    + discriminate.
    + discriminate.
    + reflexivity.
    + reflexivity.
    + reflexivity.
Defined.

(** ** The session registry *)

Import Sessions.

Lemma step_keeps_entries (st : State) (e : event) (id : string) :
  is_Some (activeAgents st !! id) → is_Some (activeAgents (step st e) !! id).
Proof.
  intros Hin. destruct e as [ws uuid connect | ws]; simpl; [|exact Hin].
  unfold on_connection.
  assert (is_Some (<[uuid := new_agent ws]> (activeAgents st) !! id)) as Hins.
  { rewrite lookup_insert. case_decide; [eauto | exact Hin]. }
  destruct connect; simpl; exact Hins.
Qed.

Lemma run_keeps_entries (events : list event) (st : State) (id : string) :
  is_Some (activeAgents st !! id) →
  is_Some (activeAgents (run st events) !! id).
Proof.
  revert st. induction events as [|e events IH]; intros st Hin; simpl.
  - exact Hin.
  - apply IH, step_keeps_entries, Hin.
Qed.

Lemma connection_registers (st : State) (ws : socket) (uuid : string)
    (connect : outcome unit) :
  activeAgents (step st (Connection ws uuid connect)) !! uuid
  = Some (new_agent ws).
Proof.
  simpl. unfold on_connection.
  destruct connect; simpl; apply lookup_insert_eq.
Qed.

Lemma failed_connection_closes_socket (st : State) (ws : socket)
    (uuid : string) (e : exn) :
  ws ∉ open_sockets (step st (Connection ws uuid (Throw e))).
Proof.
  simpl. rewrite elem_of_difference, elem_of_singleton. intros [_ Hne].
  now apply Hne.
Qed.

(** An entry that is in the registry is still there after any further
    events: no handler deletes from [activeAgents]. *)
Lemma registry_entries_stay (st : State) (events : list event) (id : string) :
  is_Some (activeAgents st !! id) →
  is_Some (activeAgents (run st events) !! id).
Proof. apply run_keeps_entries. Qed.

(** C4.  A media stream is accepted and its model connection fails: the
    handler closes the socket, and the entry it had put in [activeAgents]
    for the session is still there.  The session has reached its end and
    its entry has outlived its transport; the map that the source calls
    the map of active sessions holds a session that is over. *)
Theorem registry_keeps_entry_of_ended_session :
  (activeAgents (run initial Notions.failed_session)
     !! "0b2c5f0e-6c1d-4c57-9a53-3f1f0a9d2e11")
  = Some (new_agent 7%nat)
  ∧ (7%nat ∉ open_sockets (run initial Notions.failed_session))
  ∧ ¬ no_entry_outlives_transport (run initial Notions.failed_session).
Proof.
  assert ((activeAgents (run initial Notions.failed_session)
             !! "0b2c5f0e-6c1d-4c57-9a53-3f1f0a9d2e11")
          = Some (new_agent 7%nat)) as Hentry
    by apply connection_registers.
  assert (7%nat ∉ open_sockets (run initial Notions.failed_session))
    as Hclosed by apply failed_connection_closes_socket.
  split; [exact Hentry|]. split; [exact Hclosed|].
  intros Hinv. apply Hclosed. exact (Hinv _ _ Hentry).
Qed.

(** The same after an orderly call: the caller hangs up, the entry stays. *)
Example registry_entry_outlives_hangup :
  ¬ no_entry_outlives_transport
      (run initial [Connection 7%nat "id-1" (Return tt); SocketClosed 7%nat]).
Proof.
  intros Hinv. specialize (Hinv "id-1" (new_agent 7%nat)).
  simpl in Hinv. unfold on_connection in Hinv. simpl in Hinv.
  rewrite lookup_insert_eq in Hinv. specialize (Hinv eq_refl).
  rewrite elem_of_difference, elem_of_singleton in Hinv.
  destruct Hinv as [_ Hne]. now apply Hne.
Qed.

(** ** Strings *)

Lemma string_app_cons (x : ascii) (a b : string) :
  String x a +:+ b = String x (a +:+ b).
Proof. reflexivity. Qed.

Lemma string_app_nil_l (a : string) : "" +:+ a = a.
Proof. reflexivity. Qed.

Lemma string_app_assoc (a b c : string) : (a +:+ b) +:+ c = a +:+ (b +:+ c).
Proof.
  induction a as [|x a IH]; [reflexivity|].
  rewrite !string_app_cons. now rewrite IH.
Qed.

Lemma string_app_nil_r (a : string) : a +:+ "" = a.
Proof.
  induction a as [|x a IH]; [reflexivity|].
  rewrite string_app_cons. now rewrite IH.
Qed.

Lemma all_chars_app (p : ascii → bool) (a b : string) :
  Url.all_chars p (a +:+ b) = Url.all_chars p a && Url.all_chars p b.
Proof.
  induction a as [|x a IH]; [reflexivity|].
  rewrite string_app_cons. simpl. rewrite IH. now rewrite andb_assoc.
Qed.

Lemma all_chars_weaken (p q : ascii → bool) (s : string) :
  (∀ c, p c = true → q c = true) →
  Url.all_chars p s = true → Url.all_chars q s = true.
Proof.
  intros Hpq. induction s as [|x s IH]; simpl; [reflexivity|].
  rewrite !andb_true_iff. intros [Hx Hs]. split; auto.
Qed.

(** ** The XML recogniser on a text with a hole *)

Lemma feed_app (a b : string) (st : Xml.state) :
  Xml.feed st (a +:+ b)
  = match Xml.feed st a with
    | Some st' => Xml.feed st' b
    | None => None
    end.
Proof.
  revert st. induction a as [|x a IH]; intros st; [reflexivity|].
  rewrite string_app_cons. simpl.
  destruct (Xml.step st x); [apply IH | reflexivity].
Qed.

Lemma authority_char_value_char (c : ascii) :
  Url.authority_char c = true → Xml.value_char c = true.
Proof.
  destruct c as [[] [] [] [] [] [] [] []]; vm_compute; congruence.
Qed.

Lemma feed_attribute_value (s : string) :
  ∀ (n : string) (a : Xml.attributes) (k v : string) (opened : list string)
    (seen : list Xml.element) (closed : bool),
    Url.all_chars Xml.value_char s = true →
    Xml.feed {| Xml.st_mode := Xml.AttrValue n a k v; Xml.st_open := opened;
                Xml.st_seen := seen; Xml.st_root_closed := closed |} s
    = Some {| Xml.st_mode := Xml.AttrValue n a k (v +:+ s);
              Xml.st_open := opened; Xml.st_seen := seen;
              Xml.st_root_closed := closed |}.
Proof.
  induction s as [|c s IH]; intros n a k v opened seen closed Hs; simpl.
  - now rewrite string_app_nil_r.
  - simpl in Hs. apply andb_true_iff in Hs as [Hc Hs].
    unfold Xml.step. simpl.
    unfold Xml.value_char in Hc. apply negb_true_iff in Hc.
    apply orb_false_iff in Hc as [Hc Hamp].
    apply orb_false_iff in Hc as [Hq Hlt].
    rewrite Hq, Hlt, Hamp. simpl. unfold Xml.with_mode. simpl.
    rewrite IH by exact Hs. unfold Xml.snoc.
    now rewrite string_app_assoc.
Qed.

Lemma twiml_well_formed (u : string) :
  Url.all_chars Xml.value_char u = true →
  Xml.elements (twiml_head +:+ u +:+ twiml_tail)
  = Some (Claims.twiml_elements u).
Proof.
  intros Hu. unfold Xml.elements.
  rewrite feed_app.
  replace (Xml.feed Xml.initial twiml_head)
    with (Some {| Xml.st_mode := Xml.AttrValue "Stream" [] "url" "";
                  Xml.st_open := ["Start"; "Response"];
                  Xml.st_seen := [("Response", []); ("Say", []); ("Start", [])];
                  Xml.st_root_closed := false |})
    by (vm_compute; reflexivity).
  rewrite feed_app, (feed_attribute_value u) by exact Hu.
  rewrite string_app_nil_l. vm_compute. reflexivity.
Qed.

(** ** URLs *)

Lemma authority_char_not_slash (c : ascii) :
  Url.authority_char c = true → Ascii.eqb c "/"%char = false.
Proof.
  destruct c as [[] [] [] [] [] [] [] []]; vm_compute; congruence.
Qed.

Lemma split_authority_app (a p : string) :
  Url.all_chars Url.authority_char a = true →
  p = "" ∨ (∃ p', p = String "/"%char p') →
  Url.split_authority (a +:+ p) = (a, p).
Proof.
  intros Ha Hp. induction a as [|c a IH].
  - rewrite string_app_nil_l. destruct Hp as [-> | [p' ->]]; reflexivity.
  - simpl in Ha. apply andb_true_iff in Ha as [Hc Ha].
    rewrite string_app_cons. simpl.
    rewrite (authority_char_not_slash c Hc), (IH Ha). reflexivity.
Qed.

Lemma parse_scheme_authority (sch a p : string) :
  sch = "http" ∨ sch = "https" ∨ sch = "ws" ∨ sch = "wss" →
  Url.all_chars Url.authority_char a = true →
  p = "" ∨ (∃ p', p = String "/"%char p') →
  Url.parse (sch +:+ "://" +:+ a +:+ p)
  = Some {| Url.scheme := sch; Url.authority := a; Url.path := p |}.
Proof.
  intros Hsch Ha Hp.
  assert (Url.cut "://" (sch +:+ "://" +:+ a +:+ p) = Some (sch, a +:+ p))
    as Hcut by (destruct Hsch as [-> | [-> | [-> | ->]]]; reflexivity).
  unfold Url.parse. rewrite Hcut.
  assert (String.eqb sch "" = false) as ->
    by (destruct Hsch as [-> | [-> | [-> | ->]]]; reflexivity).
  rewrite (split_authority_app a p Ha Hp). reflexivity.
Qed.

Lemma wsUrl_of_public_url (env : Env) (secure : bool) (auth : string) :
  PUBLIC_URL env = (if secure then "https" else "http") +:+ "://" +:+ auth →
  wsUrl env
  = (if secure then "wss" else "ws") +:+ "://" +:+ auth +:+ "/twilio/stream".
Proof.
  intros Hurl. unfold wsUrl. rewrite Hurl.
  destruct secure.
  - change (replace ("https" +:+ "://" +:+ auth) "http" "ws")
      with ("wss" +:+ "://" +:+ auth).
    now rewrite !string_app_assoc.
  - change (replace ("http" +:+ "://" +:+ auth) "http" "ws")
      with ("ws" +:+ "://" +:+ auth).
    now rewrite !string_app_assoc.
Qed.

(** C6, as the code has it.  When the configured public URL is
    [http://authority] or [https://authority] (lower-case scheme, host
    with optional port, nothing after it), every POST to [/twilio/voice]
    answers 200 with a well-formed XML document whose [Stream] element has
    the [url] [ws://authority/twilio/stream], respectively
    [wss://authority/twilio/stream]: scheme [ws] or [wss], the authority
    of the public URL, and the media-stream path, which is the path the
    upgrade handler accepts. *)
Theorem twilio_voice_stream_url (env : Env) (req : Request) (secure : bool)
    (auth : string) :
  PUBLIC_URL env = (if secure then "https" else "http") +:+ "://" +:+ auth →
  Url.all_chars Url.authority_char auth = true →
  resp_status (twilio_voice env req) = 200
  ∧ resp_body (twilio_voice env req) = Text (twiml env)
  ∧ Xml.elements (twiml env)
    = Some (Claims.twiml_elements
              ((if secure then "wss" else "ws") +:+ "://" +:+ auth
                 +:+ "/twilio/stream"))
  ∧ Claims.stream_matches_public_url env (twilio_voice env req)
  ∧ upgrade_accepts (Some "/twilio/stream") = true.
Proof.
  intros Hurl Hauth.
  pose proof (wsUrl_of_public_url env secure auth Hurl) as Hws.
  assert (Url.all_chars Xml.value_char (wsUrl env) = true) as Hsafe.
  { rewrite Hws, !all_chars_app.
    rewrite (all_chars_weaken _ _ auth authority_char_value_char Hauth).
    destruct secure; reflexivity. }
  assert (Xml.elements (twiml env) = Some (Claims.twiml_elements (wsUrl env)))
    as Hdoc by exact (twiml_well_formed (wsUrl env) Hsafe).
  split; [reflexivity|]. split; [reflexivity|].
  split; [rewrite Hdoc, Hws; reflexivity|].
  split; [|reflexivity].
  exists (twiml env), (Claims.twiml_elements (wsUrl env)),
    [("url", wsUrl env)], (wsUrl env),
    {| Url.scheme := if secure then "wss" else "ws"; Url.authority := auth;
       Url.path := "/twilio/stream" |},
    {| Url.scheme := if secure then "https" else "http";
       Url.authority := auth; Url.path := "" |}.
  split; [reflexivity|]. split; [exact Hdoc|].
  split; [simpl; tauto|]. split; [reflexivity|].
  split.
  { rewrite Hws. apply parse_scheme_authority; [|exact Hauth|eauto].
    destruct secure; tauto. }
  split; [destruct secure; tauto|].
  split; [|split; reflexivity].
  rewrite Hurl.
  rewrite <- (string_app_nil_r auth) at 1.
  apply parse_scheme_authority; [|exact Hauth|tauto].
  destruct secure; tauto.
Qed.

Lemma twilio_voice_stream_url_witness :
  Xml.elements (twiml Samples.env_prod)
  = Some (Claims.twiml_elements "wss://gateway.example.com/twilio/stream")
  ∧ Claims.stream_matches_public_url Samples.env_prod
      (twilio_voice Samples.env_prod Samples.req_call).
Proof.
  destruct (twilio_voice_stream_url Samples.env_prod Samples.req_call true
              "gateway.example.com" eq_refl eq_refl)
    as (_ & _ & Hdoc & Hclaim & _).
  split; [exact Hdoc | exact Hclaim].
Defined.

(** C6, as stated, fails: with the public URL written with a final
    slash, the stream URL is [wss://gateway.example.com//twilio/stream],
    whose path is not the media-stream path. *)
Lemma twilio_voice_stream_path_mismatch :
  ¬ Claims.stream_matches_public_url Samples.env_slash
      (twilio_voice Samples.env_slash Samples.req_call).
Proof.
  intros (doc & elems & attrs & u & target & pub & Hbody & Hdoc & Hin & Hattr
          & Htarget & _ & _ & _ & Hpath).
  simpl in Hbody. injection Hbody as <-.
  vm_compute in Hdoc. injection Hdoc as <-.
  simpl in Hin.
  destruct Hin as [Hin | [Hin | [Hin | [Hin | [Hin | []]]]]];
    try discriminate Hin.
  injection Hin as <-.
  vm_compute in Hattr. injection Hattr as <-.
  vm_compute in Htarget. injection Htarget as <-.
  vm_compute in Hpath. discriminate Hpath.
Qed.

(** The upgrade handler refuses the path of that stream URL. *)
Example upgrade_refuses_double_slash :
  Url.path <$> Url.parse (wsUrl Samples.env_slash) = Some "//twilio/stream"
  ∧ upgrade_accepts (Some "//twilio/stream") = false.
Proof. split; reflexivity. Qed.

(** ** The guidance text of a script *)

Import Claims.

Lemma occurs_in_refl (a : string) : occurs_in a a.
Proof. exists "", "". now rewrite string_app_nil_r. Qed.

Lemma occurs_in_app_l (p a b : string) : occurs_in p a → occurs_in p (a +:+ b).
Proof.
  intros (x & y & ->). exists x, (y +:+ b). now rewrite !string_app_assoc.
Qed.

Lemma occurs_in_app_r (p a b : string) : occurs_in p b → occurs_in p (a +:+ b).
Proof.
  intros (x & y & ->). exists (a +:+ x), y. now rewrite !string_app_assoc.
Qed.

Lemma occurs_in_trans (p q r : string) :
  occurs_in p q → occurs_in q r → occurs_in p r.
Proof.
  intros (x & y & ->) (x' & y' & ->).
  exists (x' +:+ x), (y +:+ y'). now rewrite !string_app_assoc.
Qed.

Create HintDb occurs.
#[local] Hint Resolve occurs_in_refl occurs_in_app_l occurs_in_app_r
  occurs_in_middle : occurs.

Section Guidance.
Context `{Platform}.

Lemma forEach_from_stages (l : list ScriptTool.Stage) :
  ∀ (index : nat) (text : string),
    ScriptTool.forEach_from index l
      (fun instructions stage index =>
         instructions +:+ ScriptTool.stage_text stage index) text
    = text +:+ stages_text index l.
Proof.
  induction l as [|stage l IH]; intros index text; simpl.
  - now rewrite string_app_nil_r.
  - rewrite IH. now rewrite string_app_assoc.
Qed.

(** The instructions, as one concatenation. *)
Lemma generateScriptInstructions_eq (script : ScriptTool.Script) :
  ScriptTool.generateScriptInstructions script
  = (nl +:+ nl +:+ "## 🎯 ACTIVE SCRIPT: " +:+ ScriptTool.name script
       +:+ nl +:+ nl +:+ ScriptTool.description script +:+ nl +:+ nl)
    +:+ ("### 📋 SCRIPT STRUCTURE:" +:+ nl)
    +:+ stages_text 0 (ScriptTool.stages script)
    +:+ ScriptTool.output_format_text script
    +:+ ScriptTool.interactive_elements_text script
    +:+ ScriptTool.execution_guidelines.
Proof.
  unfold ScriptTool.generateScriptInstructions, ScriptTool.forEach.
  rewrite forEach_from_stages. now rewrite !string_app_assoc.
Qed.

Lemma stage_text_occurs (l : list ScriptTool.Stage) :
  ∀ (base index : nat) (stage : ScriptTool.Stage),
    l !! index = Some stage →
    occurs_in (ScriptTool.stage_text stage (base + index)) (stages_text base l).
Proof.
  induction l as [|s l IH]; intros base index stage Hl; [discriminate|].
  destruct index as [|index]; simpl in *.
  - injection Hl as ->. rewrite Nat.add_0_r. auto with occurs.
  - apply occurs_in_app_r.
    replace (base + S index)%nat with (S base + index)%nat by lia.
    now apply IH.
Qed.

Lemma stage_text_covers (stage : ScriptTool.Stage) (index : nat) :
  occurs_in (num_to_string (Z.of_nat index + 1) +:+ ". **"
               +:+ toUpperCase (ScriptTool.stage_name stage) +:+ "**: "
               +:+ ScriptTool.stage_prompt stage +:+ nl)
            (ScriptTool.stage_text stage index)
  ∧ (∀ q qs, ScriptTool.stage_questions stage = Some (q :: qs) →
       occurs_in ("   - Key questions: " +:+ join ", " (q :: qs) +:+ nl)
                 (ScriptTool.stage_text stage index))
  ∧ (∀ a acts, ScriptTool.stage_actions stage = Some (a :: acts) →
       occurs_in ("   - Available actions: " +:+ join ", " (a :: acts) +:+ nl)
                 (ScriptTool.stage_text stage index)).
Proof.
  unfold ScriptTool.stage_text. split; [|split].
  - rewrite <- !string_app_assoc. do 2 apply occurs_in_app_l.
    rewrite !string_app_assoc. apply occurs_in_refl.
  - intros q qs ->. simpl ScriptTool.nonempty_list.
    apply occurs_in_app_r, occurs_in_app_l, occurs_in_refl.
  - intros a acts ->. simpl ScriptTool.nonempty_list.
    do 2 apply occurs_in_app_r. apply occurs_in_refl.
Qed.

Lemma generateScriptInstructions_covers (script : ScriptTool.Script) :
  guidance_covers script (ScriptTool.generateScriptInstructions script).
Proof.
  rewrite generateScriptInstructions_eq.
  split; [|split; [|split; [|split]]].
  - apply occurs_in_app_l. do 3 apply occurs_in_app_r.
    apply occurs_in_app_l, occurs_in_refl.
  - apply occurs_in_app_l. do 6 apply occurs_in_app_r.
    apply occurs_in_app_l, occurs_in_refl.
  - intros index stage Hstage.
    pose proof (stage_text_occurs _ 0 index stage Hstage) as Hocc.
    simpl in Hocc.
    assert (∀ p, occurs_in p (ScriptTool.stage_text stage index) →
                 occurs_in p
                   ((nl +:+ nl +:+ "## 🎯 ACTIVE SCRIPT: "
                       +:+ ScriptTool.name script +:+ nl +:+ nl
                       +:+ ScriptTool.description script +:+ nl +:+ nl)
                    +:+ ("### 📋 SCRIPT STRUCTURE:" +:+ nl)
                    +:+ stages_text 0 (ScriptTool.stages script)
                    +:+ ScriptTool.output_format_text script
                    +:+ ScriptTool.interactive_elements_text script
                    +:+ ScriptTool.execution_guidelines)) as Hlift.
    { intros p Hp. do 2 apply occurs_in_app_r. apply occurs_in_app_l.
      exact (occurs_in_trans _ _ _ Hp Hocc). }
    destruct (stage_text_covers stage index) as (Hline & Hq & Ha).
    split; [auto|]. split; intros; apply Hlift; eauto.
  - intros fmt Hfmt Hne. do 3 apply occurs_in_app_r. apply occurs_in_app_l.
    unfold ScriptTool.output_format_text. rewrite Hfmt. simpl.
    rewrite (eqb_false_of_ne _ _ Hne). apply occurs_in_refl.
  - intros e els Hels. do 4 apply occurs_in_app_r. apply occurs_in_app_l.
    unfold ScriptTool.interactive_elements_text. rewrite Hels. simpl.
    apply occurs_in_refl.
Qed.

(** What a successful [get_script_info] went through. *)
Lemma get_script_info_success (fetch : fetcher ScriptTool.Script)
    (args : ScriptTool.ScriptLoadArgs) (info : script_info) :
  get_script_info fetch args = Return (Success info) →
  ∃ res, fetch (ScriptTool.script_request args) = Return res
         ∧ ok res = true
         ∧ json res = Return (script info)
         ∧ guidance info
           = ScriptTool.generateScriptInstructions (script info).
Proof.
  unfold get_script_info, ScriptTool.scriptLoadTool.
  destruct (fetch (ScriptTool.script_request args)) as [res|e]; simpl;
    [|discriminate].
  destruct (ok res) eqn:Hok; simpl; [|discriminate].
  destruct (json res) as [s|e] eqn:Hjson; simpl; [|discriminate].
  intros [= <-]. exists res. repeat split; assumption.
Qed.

End Guidance.

(** C7.  Whenever [get_script_info] succeeds, the guidance it returns is
    [generateScriptInstructions] of the descriptor that this very call
    fetched and returns: two successful calls, whatever their arguments
    and whatever the backend held at each, give the same guidance text
    when their descriptors are equal; the text covers each stage's number,
    name and prompt, the question and action lists that are there, and
    the output-format and interactive-element notes that are there; and
    nothing of an earlier call enters a later one. *)
Theorem guidance_depends_on_descriptor_only `{Platform}
    (fetch1 fetch2 : fetcher ScriptTool.Script)
    (args1 args2 : ScriptTool.ScriptLoadArgs) (info1 info2 : script_info) :
  get_script_info fetch1 args1 = Return (Success info1) →
  get_script_info fetch2 args2 = Return (Success info2) →
  guidance info1 = ScriptTool.generateScriptInstructions (script info1)
  ∧ guidance info2 = ScriptTool.generateScriptInstructions (script info2)
  ∧ (script info1 = script info2 → guidance info1 = guidance info2)
  ∧ guidance_covers (script info1) (guidance info1)
  ∧ (∃ res, fetch2 (ScriptTool.script_request args2) = Return res
            ∧ json res = Return (script info2)).
Proof.
  intros H1 H2.
  apply get_script_info_success in H1 as (res1 & _ & _ & _ & Hg1).
  apply get_script_info_success in H2 as (res2 & Hf2 & _ & Hj2 & Hg2).
  split; [exact Hg1|]. split; [exact Hg2|]. split; [|split].
  - intros Heq. now rewrite Hg1, Hg2, Heq.
  - rewrite Hg1. apply generateScriptInstructions_covers.
  - exists res2. auto.
Qed.

Lemma guidance_depends_on_descriptor_only_witness :
  @guidance_covers Samples.platform Samples.blog_writer
    (@ScriptTool.generateScriptInstructions Samples.platform Samples.blog_writer).
Proof.
  destruct (@guidance_depends_on_descriptor_only Samples.platform
              (Samples.catalog Samples.blog_writer)
              (Samples.catalog Samples.blog_writer)
              {| ScriptTool.script_name := "blog_writer" |}
              {| ScriptTool.script_name := "blog" |}
              {| script := Samples.blog_writer;
                 guidance := @ScriptTool.generateScriptInstructions
                               Samples.platform Samples.blog_writer |}
              {| script := Samples.blog_writer;
                 guidance := @ScriptTool.generateScriptInstructions
                               Samples.platform Samples.blog_writer |}
              eq_refl eq_refl)
    as (_ & _ & _ & Hcovers & _).
  exact Hcovers.
Defined.

(** ** Ordering of the signed parameters *)

#[local] Instance index_le_transitive : Transitive index_le.
Proof. intros a b c. unfold index_le. lia. Qed.

#[local] Instance index_le_total : Total index_le.
Proof. intros a b. unfold index_le. lia. Qed.

Lemma Object_keys_sorted_perm (m : gmap string jsval) :
  Object_keys_sorted m ≡ₚ (map_to_list m).*1.
Proof. apply merge_sort_Permutation. Qed.

Lemma Object_keys_sorted_sorted (m : gmap string jsval) :
  StronglySorted String.le (Object_keys_sorted m).
Proof. apply StronglySorted_merge_sort; apply _. Qed.

Lemma Object_keys_sorted_NoDup (m : gmap string jsval) :
  NoDup (Object_keys_sorted m).
Proof.
  rewrite Object_keys_sorted_perm. apply NoDup_fst_map_to_list.
Qed.

Lemma elem_of_Object_keys_sorted (m : gmap string jsval) (k : string) :
  k ∈ Object_keys_sorted m ↔ is_Some (m !! k).
Proof.
  rewrite Object_keys_sorted_perm, list_elem_of_fmap. split.
  - intros ([k' v] & -> & Hin). apply elem_of_map_to_list in Hin. eauto.
  - intros [v Hv]. exists (k, v). split; [reflexivity|].
    now apply elem_of_map_to_list.
Qed.

Lemma has_key_snoc (o : obj) (k k' : string) (v : jsval) :
  has_key (o ++ [(k, v)]) k' = has_key o k' || String.eqb k k'.
Proof.
  unfold has_key. rewrite existsb_app. simpl. now rewrite orb_false_r.
Qed.

(** Assignments of distinct new keys append the properties in order. *)
Lemma fold_obj_set (f : string → jsval) (ks : list string) :
  ∀ acc : obj,
    NoDup ks →
    "__proto__" ∉ ks →
    (∀ k, k ∈ ks → has_key acc k = false) →
    fold_left (fun acc k => obj_set acc k (f k)) ks acc
    = acc ++ ((fun k => (k, f k)) <$> ks).
Proof.
  induction ks as [|k ks IH]; intros acc Hnodup Hproto Hnew; simpl.
  - now rewrite app_nil_r.
  - apply NoDup_cons in Hnodup as [Hk Hnodup].
    apply not_elem_of_cons in Hproto as [Hne Hproto].
    unfold obj_set at 2.
    rewrite (eqb_false_of_ne k "__proto__") by congruence.
    rewrite (Hnew k) by left.
    rewrite IH; [now rewrite <- app_assoc | assumption | assumption |].
    intros k' Hk'. rewrite has_key_snoc, (Hnew k') by now right.
    apply eqb_false_of_ne. intros ->. contradiction.
Qed.

Lemma sorted_params_eq (params : gmap string jsval) :
  params !! "__proto__" = None →
  sorted_params params
  = (fun k => (k, default JUndef (params !! k))) <$> Object_keys_sorted params.
Proof.
  intros Hproto. unfold sorted_params.
  rewrite fold_obj_set; [reflexivity | apply Object_keys_sorted_NoDup | |].
  - rewrite elem_of_Object_keys_sorted, Hproto. intros [? [=]].
  - reflexivity.
Qed.

Lemma sorted_params_perm (params : gmap string jsval) :
  params !! "__proto__" = None →
  sorted_params params ≡ₚ map_to_list params.
Proof.
  intros Hproto. rewrite (sorted_params_eq params Hproto).
  rewrite Object_keys_sorted_perm, <- list_fmap_compose.
  assert (((fun k => (k, default JUndef (params !! k))) ∘ fst)
            <$> map_to_list params = map_to_list params) as ->; [|reflexivity].
  rewrite <- (list_fmap_id (map_to_list params)) at 2.
  apply Forall_fmap_ext, Forall_forall.
  intros [k v] Hin. apply elem_of_map_to_list in Hin. simpl.
  now rewrite Hin.
Qed.

Lemma signed_entries_perm (params : gmap string jsval) :
  params !! "__proto__" = None →
  signed_entries params ≡ₚ map_to_list params.
Proof.
  intros Hproto. unfold signed_entries, Object_entries.
  rewrite merge_sort_Permutation, filter_app_complement.
  now apply sorted_params_perm.
Qed.

Lemma StronglySorted_filter {A} (R : relation A) (P : A → Prop)
    `{∀ x, Decision (P x)} (l : list A) :
  StronglySorted R l → StronglySorted R (filter P l).
Proof.
  induction 1 as [|x l Hl IH Hx]; [constructor|].
  rewrite filter_cons. destruct (decide (P x)); [|exact IH].
  constructor; [exact IH|].
  apply Forall_forall. intros y Hy. apply list_elem_of_filter in Hy as [_ Hy].
  rewrite Forall_forall in Hx. auto.
Qed.

Lemma StronglySorted_change {A} (R R' : relation A) (P : A → Prop)
    (l : list A) :
  (∀ a b, P a → P b → R a b → R' a b) →
  Forall P l → StronglySorted R l → StronglySorted R' l.
Proof.
  intros HR HP Hs. induction Hs as [|x l Hl IH Hx]; [constructor|].
  apply Forall_cons in HP as [Hpx HP].
  constructor; [now apply IH|].
  rewrite Forall_forall in *. intros y Hy. apply HR; auto.
Qed.

Lemma entry_le_of_index (a b : string * jsval) :
  is_index a → is_index b → index_le a b → entry_le a b.
Proof.
  unfold is_index, index_le, index_of, entry_le, key_le.
  intros [i ->] [j ->]. simpl. auto.
Qed.

Lemma entry_le_of_names (a b : string * jsval) :
  ¬ is_index a → ¬ is_index b → String.le (fst a) (fst b) → entry_le a b.
Proof.
  unfold is_index, entry_le, key_le. intros Ha Hb Hle.
  destruct (index_value (fst a)); [exfalso; eauto|].
  destruct (index_value (fst b)); [exfalso; eauto|]. exact Hle.
Qed.

Lemma names_le_of_entry_le (a b : string * jsval) :
  index_value (fst a) = None → index_value (fst b) = None →
  entry_le a b → String.le (fst a) (fst b).
Proof. unfold entry_le, key_le. intros -> ->. auto. Qed.

Lemma Object_entries_sorted (o : obj) :
  StronglySorted (fun a b => String.le (fst a) (fst b)) o →
  StronglySorted entry_le (Object_entries o).
Proof.
  intros Ho. unfold Object_entries. apply StronglySorted_app_2.
  - intros a b Ha Hb.
    rewrite merge_sort_Permutation in Ha.
    apply list_elem_of_filter in Ha as [[i Hi] _].
    apply list_elem_of_filter in Hb as [Hb _].
    unfold entry_le, key_le. rewrite Hi.
    destruct (index_value (fst b)) eqn:Hj; [|exact I].
    exfalso. apply Hb. unfold is_index. rewrite Hj. eauto.
  - apply (StronglySorted_change index_le entry_le is_index).
    + apply entry_le_of_index.
    + apply Forall_forall. intros a Ha.
      rewrite merge_sort_Permutation in Ha.
      now apply list_elem_of_filter in Ha as [Ha _].
    + apply StronglySorted_merge_sort; apply _.
  - apply (StronglySorted_change (fun a b => String.le (fst a) (fst b))
             entry_le (fun kv => ¬ is_index kv)).
    + apply entry_le_of_names.
    + apply Forall_forall. intros a Ha.
      now apply list_elem_of_filter in Ha as [Ha _].
    + now apply StronglySorted_filter.
Qed.

Lemma timingSafeEqual_true (a b : string) :
  timingSafeEqual a b = Return true ↔ a = b.
Proof.
  unfold timingSafeEqual. split.
  - destruct (Nat.eqb _ _); [|discriminate].
    intros [= Heq]. now apply String.eqb_eq.
  - intros ->. rewrite Nat.eqb_refl, String.eqb_refl. reflexivity.
Qed.

Lemma sorted_params_sorted (params : gmap string jsval) :
  params !! "__proto__" = None →
  StronglySorted (fun a b => String.le (fst a) (fst b)) (sorted_params params).
Proof.
  intros Hproto. rewrite (sorted_params_eq params Hproto).
  apply (StronglySorted_fmap _ String.le); [auto|].
  apply Object_keys_sorted_sorted.
Qed.

(** ** Signature validation with a token *)

(** X18.  For form parameters with ASCII names, none of them
    [__proto__], and with the shared secret set, [validateTwilioRequest]
    computes the HMAC, keyed by the secret, of the public callback URL
    ([PUBLIC_URL] followed by [/twilio/voice]) followed by the parameters
    of the request, each as its key immediately followed by its value,
    and the request is accepted exactly when [timingSafeEqual] finds the
    supplied signature header equal to that HMAC.  The entries are all
    the parameters of the request, once each; they are in the order in
    which the own keys of an object are listed ([entry_le]: array indices
    first, by value), which is the ascending order of the keys whenever
    no key is an array index. *)
Theorem validateTwilioRequest_checks_hmac `{Platform} (env : Env)
    (req : Request) (token : string) :
  env_TWILIO_AUTH_TOKEN env = Some token →
  token ≠ "" →
  Notions.form_params (params_of req) = true →
  params_of req !! "__proto__" = None →
  let entries := signed_entries (params_of req) in
  let data :=
    (PUBLIC_URL env +:+ "/twilio/voice")
      +:+ join "" (List.map key_value entries) in
  let computed := hmac_sha1_base64 token data in
  let signature := or_default (req_signature req) "" in
  entries ≡ₚ map_to_list (params_of req)
  ∧ StronglySorted entry_le entries
  ∧ ((∀ k, is_Some (params_of req !! k) → index_value k = None) →
     StronglySorted String.le entries.*1)
  ∧ validateTwilioRequest env req = timingSafeEqual signature computed
  ∧ (validateTwilioRequest env req = Return true ↔ signature = computed).
Proof.
  intros Htoken Hne _ Hproto entries data computed signature.
  assert (entries ≡ₚ map_to_list (params_of req)) as Hperm
    by now apply signed_entries_perm.
  assert (StronglySorted entry_le entries) as Hsorted
    by now apply Object_entries_sorted, sorted_params_sorted.
  assert (validateTwilioRequest env req = timingSafeEqual signature computed)
    as Hval.
  { unfold validateTwilioRequest.
    rewrite Htoken, (eqb_false_of_ne _ _ Hne). reflexivity. }
  split; [exact Hperm|]. split; [exact Hsorted|].
  split; [|split; [exact Hval|]].
  - intros Hnames.
    apply (StronglySorted_fmap fst (fun a b => String.le (fst a) (fst b)));
      [auto|].
    apply (StronglySorted_change entry_le _
             (fun kv => index_value (fst kv) = None)); [| |exact Hsorted].
    + intros a b Ha Hb. now apply names_le_of_entry_le.
    + apply Forall_forall. intros [k v] Hin. simpl.
      rewrite Hperm in Hin. apply elem_of_map_to_list in Hin.
      apply Hnames. eauto.
  - rewrite Hval. apply timingSafeEqual_true.
Qed.

Lemma validateTwilioRequest_checks_hmac_witness :
  @validateTwilioRequest Samples.platform Samples.env_prod
    Samples.req_call_signed = Return true
  ∧ (signed_entries Samples.call_params).*1 = ["CallSid"; "From"; "To"].
Proof.
  destruct (@validateTwilioRequest_checks_hmac Samples.platform
              Samples.env_prod Samples.req_call_signed "secret"
              eq_refl ltac:(discriminate) eq_refl eq_refl)
    as (_ & _ & _ & _ & Haccept).
  split; [|reflexivity].
  apply Haccept. reflexivity.
Defined.

(** C8.  The form [a=1&10=x&9=y], with the shared secret set.  [sort]
    puts the keys in ascending order, ["10"], ["9"], ["a"]; the object
    that [reduce] builds from them lists its array-index keys first and
    by value, so the data that is signed is the callback URL followed by
    [9y10xa1], not by [10x9ya1]: the parameters are not signed in the
    order of their keys.  The signature header is compared with the HMAC
    of that data, so the signature over the parameters sorted by key is
    accepted only if the two HMACs happen to be equal. *)
Theorem validateTwilioRequest_misorders_index_keys `{Platform}
    (signature : option string) :
  Object_keys_sorted Notions.index_params = ["10"; "9"; "a"]
  ∧ signed_data Samples.env_prod
      {| req_signature := signature;
         req_body := Some Notions.index_params |}
    = "https://gateway.example.com/twilio/voice" +:+ "9y10xa1"
  ∧ validateTwilioRequest Samples.env_prod
      {| req_signature := signature;
         req_body := Some Notions.index_params |}
    = timingSafeEqual (or_default signature "")
        (hmac_sha1_base64 "secret"
           ("https://gateway.example.com/twilio/voice" +:+ "9y10xa1")).
Proof. repeat split. Qed.

(** With a digest that tells the two data apart, the signature that the
    caller computes over the parameters sorted by key is refused. *)
Example validateTwilioRequest_refuses_sorted_signature :
  @validateTwilioRequest Samples.platform Samples.env_prod
    {| req_signature :=
         Some (@hmac_sha1_base64 Samples.platform "secret"
                 ("https://gateway.example.com/twilio/voice" +:+ "10x9ya1"));
       req_body := Some Notions.index_params |}
  = Return false.
Proof. reflexivity. Qed.

(** Keys that are array indices come first, by their value: the order is
    that of [entry_le], not of the code units. *)
Example signed_entries_of_index_keys :
  signed_entries (list_to_map [("a", JStr "1"); ("10", JStr "x");
                               ("9", JStr "y")])
  = [("9", JStr "y"); ("10", JStr "x"); ("a", JStr "1")].
Proof. reflexivity. Qed.

(** A signature of another length is not compared: the call throws. *)
Example validateTwilioRequest_throws_on_length :
  @validateTwilioRequest Samples.platform Samples.env_prod Samples.req_empty
  = Throw (JsError "RangeError" "Input buffers must have the same byte length").
Proof. reflexivity. Qed.

(** * Further properties of the gateway *)

Import Notions.

(** ** Outcomes of the tools *)

(** X1.  The [file_operation] tool returns a value exactly when the
    backend replied with an ok status and a body that parses, and then it
    returns that body as it is; a reply that is not ok is thrown as an
    [Error] that carries the status, and an error body that does not
    parse is reported as the empty object. *)
Theorem file_operation_outcomes `{Platform} (fetch : fetcher jsval)
    (args : FileTool.FileOperationArgs) :
  (∀ v, file_operation fetch args = Return v ↔
        ∃ res, fetch (FileTool.file_operation_request args) = Return res
               ∧ ok res = true ∧ json res = Return v)
  ∧ (∀ e, fetch (FileTool.file_operation_request args) = Throw e →
          file_operation fetch args = Throw e)
  ∧ (∀ res e, fetch (FileTool.file_operation_request args) = Return res →
              ok res = false → json_any res = Throw e →
              file_operation fetch args
              = Throw (JsError "Error"
                         ("file_operation failed: "
                            +:+ num_to_string (status res) +:+ " "
                            +:+ JSON_stringify (JObj [])))).
Proof.
  unfold file_operation, FileTool.fileOperationTool.
  split; [|split].
  - intros v. split.
    + destruct (fetch _) as [res|e]; simpl; [|discriminate].
      destruct (ok res) eqn:Hok; simpl; [|discriminate].
      intros Hjson. exists res. auto.
    + intros (res & -> & Hok & Hjson). simpl. now rewrite Hok.
  - intros e ->. reflexivity.
  - intros res e -> Hok Hany. simpl. rewrite Hok, Hany. reflexivity.
Qed.

Lemma file_operation_outcomes_witness :
  @file_operation Samples.platform
    (fun _ => Return {| status := 502; json := Return JNull;
                        json_any := Throw (JsError "SyntaxError" "bad");
                        text := Return "<html>" |})
    Samples.read_missing
  = Throw (JsError "Error" "file_operation failed: 502 {}").
Proof.
  apply (proj2 (proj2 (@file_operation_outcomes Samples.platform _
                         Samples.read_missing))
           {| status := 502; json := Return JNull;
              json_any := Throw (JsError "SyntaxError" "bad");
              text := Return "<html>" |}
           (JsError "SyntaxError" "bad") eq_refl eq_refl eq_refl).
Defined.

(** X2.  [get_script_info] settles to a returned object on every path.
    When [fetch] rejects, the error text is the message of the rejection,
    or ['Unknown error'] when what was thrown is no [Error]; when the
    reply is ok and its body is no JSON, it is the message of the parse
    error.  A success comes only from an ok reply whose body was read,
    and carries the guidance generated from the script it returns. *)
Theorem get_script_info_outcomes `{Platform}
    (fetch : fetcher ScriptTool.Script) (args : ScriptTool.ScriptLoadArgs) :
  (∃ r, get_script_info fetch args = Return r)
  ∧ (∀ cls msg,
       fetch (ScriptTool.script_request args) = Throw (JsError cls msg) →
       get_script_info fetch args = Return (Failure msg))
  ∧ (∀ v, fetch (ScriptTool.script_request args) = Throw (NonError v) →
          get_script_info fetch args = Return (Failure "Unknown error"))
  ∧ (∀ res e, fetch (ScriptTool.script_request args) = Return res →
              ok res = true → json res = Throw e →
              get_script_info fetch args = Return (Failure (error_text e)))
  ∧ (∀ info, get_script_info fetch args = Return (Success info) →
             ∃ res, fetch (ScriptTool.script_request args) = Return res
                    ∧ ok res = true
                    ∧ json res = Return (script info)
                    ∧ guidance info
                      = ScriptTool.generateScriptInstructions (script info)).
Proof.
  split; [apply get_script_info_returns|].
  split; [|split; [|split]].
  - intros cls msg Hf. unfold get_script_info, ScriptTool.scriptLoadTool.
    rewrite Hf. reflexivity.
  - intros v Hf. unfold get_script_info, ScriptTool.scriptLoadTool.
    rewrite Hf. reflexivity.
  - intros res e Hf Hok Hjson.
    unfold get_script_info, ScriptTool.scriptLoadTool.
    rewrite Hf. simpl. rewrite Hok. simpl. rewrite Hjson. reflexivity.
  - intros info. apply get_script_info_success.
Qed.

Lemma get_script_info_outcomes_witness :
  @get_script_info Samples.platform
    (fun _ => Throw (JsError "TypeError" "fetch failed"))
    {| ScriptTool.script_name := "blog_writer" |}
  = Return (Failure "fetch failed").
Proof.
  apply (proj1 (proj2 (@get_script_info_outcomes Samples.platform _
                         {| ScriptTool.script_name := "blog_writer" |}))
           "TypeError" "fetch failed" eq_refl).
Defined.

(** X3.  [list_available_scripts] settles to a returned object on every
    path: the names the catalog sent, unchanged, when the reply is ok and
    parses; else [{success: false, error}], where for a reply that is not
    ok the error is ["Failed to list scripts: "] with the status and the
    detail, and for a rejection it is the message of the rejection. *)
Theorem list_available_scripts_outcomes `{Platform}
    (fetch : fetcher (list string)) :
  (∃ r, list_available_scripts fetch = Return r)
  ∧ (∀ res scripts, fetch ScriptTool.list_request = Return res →
                    ok res = true → json res = Return scripts →
                    list_available_scripts fetch = Return (Success scripts))
  ∧ (∀ res, fetch ScriptTool.list_request = Return res → ok res = false →
            list_available_scripts fetch
            = Return (Failure
                ("Failed to list scripts: " +:+ num_to_string (status res)
                   +:+ " "
                   +:+ JSON_stringify
                         (try_catch (json_any res) (fun _ => JObj [])))))
  ∧ (∀ e, fetch ScriptTool.list_request = Throw e →
          list_available_scripts fetch = Return (Failure (error_text e)))
  ∧ (∀ res e, fetch ScriptTool.list_request = Return res → ok res = true →
              json res = Throw e →
              list_available_scripts fetch = Return (Failure (error_text e))).
Proof.
  split; [apply list_available_scripts_returns|].
  unfold list_available_scripts, ScriptTool.listAvailableScripts.
  split; [|split; [|split]].
  - intros res scripts -> Hok Hjson. simpl. rewrite Hok. simpl.
    now rewrite Hjson.
  - intros res -> Hok. simpl. rewrite Hok. reflexivity.
  - intros e ->. reflexivity.
  - intros res e -> Hok Hjson. simpl. rewrite Hok. simpl. now rewrite Hjson.
Qed.

Lemma list_available_scripts_outcomes_witness :
  @list_available_scripts Samples.platform
    (fun _ => Return {| status := 200; json := Return ["blog_writer"; "improv_game"];
                        json_any := Return JNull; text := Return "" |})
  = Return (Success ["blog_writer"; "improv_game"]).
Proof.
  apply (proj1 (proj2 (@list_available_scripts_outcomes Samples.platform _))
           {| status := 200; json := Return ["blog_writer"; "improv_game"];
              json_any := Return JNull; text := Return "" |}
           ["blog_writer"; "improv_game"] eq_refl eq_refl eq_refl).
Defined.

(** ** The SDP relay, further *)

(** X4.  The relay contacts the upstream at most once per request.  It
    sends nothing when the [sdp] property is missing or falsy; for an
    offer text it sends nothing exactly when the text is empty or the
    credential is missing, and otherwise it sends one request: to the
    fixed signaling URL, by POST, with the credential as bearer token and
    the offer text as body. *)
Theorem realtime_sdp_upstream_requests (env : Env) (fetch : fetcher unit)
    (req : Request) :
  (length (snd (realtime_sdp env fetch req)) ≤ 1)%nat
  ∧ (truthy (body_get req "sdp") = false →
     snd (realtime_sdp env fetch req) = [])
  ∧ (∀ offer, body_get req "sdp" = JStr offer →
       (snd (realtime_sdp env fetch req) = []
        ↔ offer = "" ∨ OPENAI_API_KEY env = "")
       ∧ (snd (realtime_sdp env fetch req) ≠ [] →
          snd (realtime_sdp env fetch req)
          = [ {| fetch_url :=
                   "https://api.openai.com/v1/realtime?model=gpt-4o-realtime-preview-2024-12-17";
                 fetch_method := "POST";
                 fetch_headers :=
                   [("Authorization", "Bearer " +:+ OPENAI_API_KEY env);
                    ("Content-Type", "application/sdp");
                    ("OpenAI-Beta", "realtime=v1")];
                 fetch_body := Some offer |} ])).
Proof.
  split; [|split].
  - unfold realtime_sdp.
    destruct (String.eqb (sdp_offer req) ""); [simpl; lia|].
    destruct (String.eqb (OPENAI_API_KEY env) ""); simpl; lia.
  - intros Hfalsy. unfold realtime_sdp.
    rewrite (sdp_offer_missing _ Hfalsy). reflexivity.
  - intros offer Hsdp. unfold realtime_sdp.
    rewrite (sdp_offer_string _ _ Hsdp).
    destruct (String.eqb_spec offer "") as [Hoffer|Hoffer].
    { split; [split; auto|]. intros []. reflexivity. }
    destruct (String.eqb_spec (OPENAI_API_KEY env) "") as [Hkey|Hkey].
    { split; [split; auto|]. intros []. reflexivity. }
    simpl. split; [|reflexivity].
    split; [discriminate|]. intros [?|?]; contradiction.
Qed.

Lemma realtime_sdp_upstream_requests_witness :
  snd (realtime_sdp Samples.env_prod (Samples.upstream 201 Samples.answer)
         Samples.req_offer)
  = [ {| fetch_url :=
           "https://api.openai.com/v1/realtime?model=gpt-4o-realtime-preview-2024-12-17";
         fetch_method := "POST";
         fetch_headers :=
           [("Authorization", "Bearer sk-test");
            ("Content-Type", "application/sdp");
            ("OpenAI-Beta", "realtime=v1")];
         fetch_body := Some Samples.offer |} ].
Proof.
  apply (proj2 (proj2 (proj2 (realtime_sdp_upstream_requests Samples.env_prod
                  (Samples.upstream 201 Samples.answer) Samples.req_offer))
                  Samples.offer eq_refl)).
  discriminate.
Defined.



(** ** The upgrade handler *)

Lemma prefix_iff (p u : string) :
  String.prefix p u = true ↔ ∃ rest, u = p +:+ rest.
Proof.
  revert u. induction p as [|a p IH]; intros u.
  - destruct u; simpl; (split; [eauto|reflexivity]).
  - destruct u as [|b u]; simpl.
    + split; [discriminate|]. intros [rest Hrest].
      rewrite string_app_cons in Hrest. discriminate.
    + destruct (ascii_dec a b) as [->|Hne].
      * rewrite IH. split; intros [rest Hrest]; exists rest.
        -- rewrite string_app_cons. now rewrite Hrest.
        -- rewrite string_app_cons in Hrest. now injection Hrest.
      * split; [discriminate|]. intros [rest Hrest].
        rewrite string_app_cons in Hrest. injection Hrest as Hab _.
        congruence.
Qed.

(** X6.  The upgrade handler hands a request to the WebSocket server
    exactly when its URL starts with [/twilio/stream]: the path and
    anything after it are accepted, a request without URL is refused. *)
Theorem upgrade_accepts_iff (url : option string) :
  upgrade_accepts url = true
  ↔ ∃ rest, url = Some ("/twilio/stream" +:+ rest).
Proof.
  unfold upgrade_accepts, startsWith. destruct url as [u|].
  - destruct (String.eqb_spec u "") as [->|Hne].
    + split; [discriminate|]. intros [rest [= Hrest]].
    + rewrite prefix_iff. split.
      * intros [rest ->]. eauto.
      * intros [rest [= ->]]. eauto.
  - split; [discriminate|]. intros [rest [=]].
Qed.

(** ** Signature validation, further *)

(** X7.  For form parameters with ASCII names and with the shared secret
    set, [validateTwilioRequest] has three outcomes: it throws a
    [RangeError] exactly when the signature header and the digest differ
    in length, it returns [false] exactly when they have the same length
    and differ, and it returns [true] exactly when they are equal.  A
    request without the header is therefore not answered [false]: with a
    digest that is not empty, the call throws. *)
Theorem validateTwilioRequest_outcomes `{Platform} (env : Env) (req : Request)
    (token : string) :
  env_TWILIO_AUTH_TOKEN env = Some token →
  token ≠ "" →
  form_params (params_of req) = true →
  let signature := or_default (req_signature req) "" in
  let computed := hmac_sha1_base64 token (signed_data env req) in
  (validateTwilioRequest env req
   = Throw (JsError "RangeError" "Input buffers must have the same byte length")
   ↔ String.length signature ≠ String.length computed)
  ∧ (validateTwilioRequest env req = Return false
     ↔ String.length signature = String.length computed
       ∧ signature ≠ computed)
  ∧ (validateTwilioRequest env req = Return true ↔ signature = computed)
  ∧ (req_signature req = None → computed ≠ "" →
     validateTwilioRequest env req
     = Throw (JsError "RangeError"
                "Input buffers must have the same byte length")).
Proof.
  intros Htoken Hne _ signature computed.
  assert (validateTwilioRequest env req = timingSafeEqual signature computed)
    as -> by (unfold validateTwilioRequest;
              now rewrite Htoken, (eqb_false_of_ne _ _ Hne)).
  split; [|split; [|split; [apply timingSafeEqual_true|]]];
    unfold timingSafeEqual;
    destruct (Nat.eqb_spec (String.length signature) (String.length computed))
      as [Hlen|Hlen].
  - split; [discriminate|]. intros Hdiff. contradiction.
  - split; auto.
  - destruct (String.eqb_spec signature computed) as [Heq|Hneq].
    + split; [discriminate|]. intros [_ Hneq]. contradiction.
    + split; auto.
  - split; [discriminate|]. intros [Heq _]. contradiction.
  - intros Hnone Hcomp. exfalso. subst signature.
    rewrite Hnone in Hlen. simpl in Hlen.
    destruct computed; [now apply Hcomp | discriminate].
  - reflexivity.
Qed.

Lemma validateTwilioRequest_outcomes_witness :
  @validateTwilioRequest Samples.platform Samples.env_prod Samples.req_empty
  = Throw (JsError "RangeError" "Input buffers must have the same byte length").
Proof.
  apply (proj2 (proj2 (proj2 (@validateTwilioRequest_outcomes Samples.platform
                         Samples.env_prod Samples.req_empty "secret"
                         eq_refl ltac:(discriminate) eq_refl))));
    [reflexivity | discriminate].
Defined.

(** Assignments of distinct new keys, where [__proto__] may be among
    them: that key leaves no property. *)
Lemma fold_obj_set_skip (f : string → jsval) (ks : list string) :
  ∀ acc : obj,
    NoDup ks →
    (∀ k, k ∈ ks → has_key acc k = false) →
    fold_left (fun acc k => obj_set acc k (f k)) ks acc
    = acc ++ ((fun k => (k, f k)) <$> filter (fun k => k ≠ "__proto__") ks).
Proof.
  induction ks as [|k ks IH]; intros acc Hnodup Hnew; simpl.
  - now rewrite app_nil_r.
  - apply NoDup_cons in Hnodup as [Hk Hnodup].
    rewrite filter_cons. unfold obj_set at 2.
    destruct (String.eqb_spec k "__proto__") as [->|Hne].
    + rewrite decide_False by (intros Hc; now apply Hc).
      apply IH; [assumption|]. intros k' Hk'. apply Hnew. now right.
    + rewrite decide_True by assumption.
      rewrite (Hnew k) by left.
      rewrite IH; [now rewrite fmap_cons, <- app_assoc | assumption |].
      intros k' Hk'. rewrite has_key_snoc, (Hnew k') by now right.
      apply eqb_false_of_ne. intros ->. contradiction.
Qed.

Lemma Object_keys_sorted_delete (m : gmap string jsval) (k : string) :
  filter (fun k' => k' ≠ k) (Object_keys_sorted m)
  = Object_keys_sorted (delete k m).
Proof.
  apply (Sorted_unique String.le).
  - apply StronglySorted_Sorted, StronglySorted_filter,
      Object_keys_sorted_sorted.
  - apply StronglySorted_Sorted, Object_keys_sorted_sorted.
  - apply NoDup_Permutation.
    + apply NoDup_filter, Object_keys_sorted_NoDup.
    + apply Object_keys_sorted_NoDup.
    + intros k'. rewrite list_elem_of_filter, !elem_of_Object_keys_sorted,
        lookup_delete_is_Some. split; intros [? ?]; split; auto.
Qed.

Lemma sorted_params_delete_proto (params : gmap string jsval) :
  sorted_params params = sorted_params (delete "__proto__" params).
Proof.
  rewrite (sorted_params_eq (delete "__proto__" params))
    by apply lookup_delete_eq.
  unfold sorted_params.
  rewrite fold_obj_set_skip;
    [| apply Object_keys_sorted_NoDup | reflexivity].
  rewrite Object_keys_sorted_delete. simpl.
  apply Forall_fmap_ext, Forall_forall. intros k Hk.
  apply elem_of_Object_keys_sorted in Hk.
  apply lookup_delete_is_Some in Hk as [Hne _].
  now rewrite lookup_delete_ne.
Qed.

(** X8.  A form parameter named [__proto__] never enters the signed
    data: validating a request gives the same outcome as validating it
    with that parameter taken out, whatever its value. *)
Theorem validateTwilioRequest_ignores_proto `{Platform} (env : Env)
    (req : Request) :
  signed_data env req = signed_data env (without_proto req)
  ∧ validateTwilioRequest env req
    = validateTwilioRequest env (without_proto req).
Proof.
  assert (signed_data env req = signed_data env (without_proto req)) as Hdata.
  { unfold signed_data, signed_entries.
    rewrite (sorted_params_delete_proto (params_of req)).
    replace (params_of (without_proto req))
      with (delete "__proto__" (params_of req)); [reflexivity|].
    unfold params_of, without_proto. simpl.
    destruct (req_body req); simpl; [reflexivity | apply delete_empty]. }
  split; [exact Hdata|].
  unfold validateTwilioRequest. now rewrite Hdata.
Qed.

Lemma signed_entries_singleton (k : string) (v : jsval) :
  k ≠ "__proto__" → signed_entries {[ k := v ]} = [(k, v)].
Proof.
  intros Hne. apply Permutation_singleton_r.
  rewrite signed_entries_perm by now apply lookup_singleton_ne.
  now rewrite map_to_list_singleton.
Qed.

(** X9.  The signed data does not mark where a key ends and its value
    begins: a request with the one parameter [k ++ a = b] and a request
    with the one parameter [k = a ++ b] have the same signed data, so a
    signature that validates the one validates the other. *)
Theorem signed_data_joins_key_and_value `{Platform} (env : Env)
    (signature : option string) (k a b : string) :
  k ≠ "__proto__" →
  k +:+ a ≠ "__proto__" →
  signed_data env (one_param signature (k +:+ a) b)
  = signed_data env (one_param signature k (a +:+ b))
  ∧ validateTwilioRequest env (one_param signature (k +:+ a) b)
    = validateTwilioRequest env (one_param signature k (a +:+ b)).
Proof.
  intros Hk Hka.
  assert (signed_data env (one_param signature (k +:+ a) b)
          = signed_data env (one_param signature k (a +:+ b))) as Hdata.
  { unfold signed_data, one_param, params_of. simpl.
    rewrite (signed_entries_singleton (k +:+ a) (JStr b) Hka).
    rewrite (signed_entries_singleton k (JStr (a +:+ b)) Hk).
    unfold key_value, join. simpl. now rewrite !string_app_assoc. }
  split; [exact Hdata|].
  unfold validateTwilioRequest. now rewrite Hdata.
Qed.

Lemma signed_data_joins_key_and_value_witness :
  @validateTwilioRequest Samples.platform Samples.env_prod
    (one_param (Some "sig") "CallSidCA" "123")
  = @validateTwilioRequest Samples.platform Samples.env_prod
      (one_param (Some "sig") "CallSid" "CA123").
Proof.
  apply (@signed_data_joins_key_and_value Samples.platform Samples.env_prod
           (Some "sig") "CallSid" "CA" "123");
    discriminate.
Defined.

(** ** The session registry, further *)

Lemma step_activeAgents (st : State) (e : event) :
  activeAgents (step st e)
  = match e with
    | Connection ws uuid _ => <[uuid := new_agent ws]> (activeAgents st)
    | SocketClosed _ => activeAgents st
    end.
Proof.
  destruct e as [ws uuid [[]|e] | ws]; reflexivity.
Qed.

Lemma step_open_sockets (st : State) (e : event) :
  open_sockets (step st e)
  = match e with
    | Connection ws _ (Return _) => {[ws]} ∪ open_sockets st
    | Connection ws _ (Throw _) => ({[ws]} ∪ open_sockets st) ∖ {[ws]}
    | SocketClosed ws => open_sockets st ∖ {[ws]}
    end.
Proof.
  destruct e as [ws uuid [[]|e] | ws]; reflexivity.
Qed.

#[local] Set Warnings "-clear-no-such-hyp".

Lemma run_dom (events : list event) :
  ∀ st, dom (activeAgents (run st events))
        = dom (activeAgents st) ∪ list_to_set (connection_ids events).
Proof.
  induction events as [|e events IH]; intros st; simpl.
  - set_solver.
  - rewrite IH, step_activeAgents.
    destruct e as [ws uuid connect | ws]; simpl.
    + rewrite dom_insert_L. set_solver.
    + reflexivity.
Qed.

Lemma run_size (events : list event) :
  ∀ st, NoDup (connection_ids events) →
        (∀ id, id ∈ connection_ids events → activeAgents st !! id = None) →
        size (activeAgents (run st events))
        = (size (activeAgents st) + length (connection_ids events))%nat.
Proof.
  induction events as [|e events IH]; intros st Hnodup Hfresh; simpl.
  - lia.
  - destruct e as [ws uuid connect | ws]; simpl in *.
    + apply NoDup_cons in Hnodup as [Huuid Hnodup].
      rewrite IH; [| assumption |].
      * change (on_connection _ ws uuid connect)
          with (step st (Connection ws uuid connect)).
        rewrite step_activeAgents, map_size_insert_None; [lia|].
        apply Hfresh. left.
      * intros id Hid.
        change (on_connection _ ws uuid connect)
          with (step st (Connection ws uuid connect)).
        rewrite step_activeAgents, lookup_insert_ne.
        -- apply Hfresh. now right.
        -- intros ->. contradiction.
    + apply (IH (ws_close st ws)); assumption.
Qed.

(** X10.  The registry holds the identifier of every connection that
    was ever accepted, whatever became of its socket: after any run its
    keys are the keys it had plus the identifiers drawn by the
    connections of the run; when these are distinct and new, the registry
    has grown by one entry for each connection. *)
Theorem registry_grows_with_every_connection (st : State)
    (events : list event) :
  dom (activeAgents (run st events))
  = dom (activeAgents st) ∪ list_to_set (connection_ids events)
  ∧ (NoDup (connection_ids events) →
     (∀ id, id ∈ connection_ids events → activeAgents st !! id = None) →
     size (activeAgents (run st events))
     = (size (activeAgents st) + length (connection_ids events))%nat).
Proof. split; [apply run_dom | apply run_size]. Qed.

Lemma registry_grows_with_every_connection_witness :
  size (activeAgents
          (run initial
             [Connection 1%nat "id-1" (Return tt); SocketClosed 1%nat;
              Connection 2%nat "id-2" (Throw (JsError "Error" "refused"))]))
  = 2%nat.
Proof.
  apply (proj2 (registry_grows_with_every_connection initial
           [Connection 1%nat "id-1" (Return tt); SocketClosed 1%nat;
            Connection 2%nat "id-2" (Throw (JsError "Error" "refused"))])).
  - simpl. apply NoDup_cons. split.
    + rewrite list_elem_of_singleton. discriminate.
    + apply NoDup_singleton.
  - intros id _. reflexivity.
Defined.

(** X11.  What happens to one session leaves the others as they were: a
    connection, whether its model connection succeeds or fails, changes
    no registry entry under another identifier and the state of no other
    socket; the close of a socket changes no registry entry at all and
    the state of no other socket. *)
Theorem session_events_are_local (st : State) (e : event) :
  match e with
  | Connection ws uuid _ =>
      (∀ id, id ≠ uuid →
             activeAgents (step st e) !! id = activeAgents st !! id)
      ∧ (∀ other, other ≠ ws →
                  (other ∈ open_sockets (step st e) ↔ other ∈ open_sockets st))
  | SocketClosed ws =>
      activeAgents (step st e) = activeAgents st
      ∧ (∀ other, other ≠ ws →
                  (other ∈ open_sockets (step st e) ↔ other ∈ open_sockets st))
  end.
Proof.
  pose proof (step_activeAgents st e) as Hreg.
  pose proof (step_open_sockets st e) as Hopen.
  destruct e as [ws uuid connect | ws]; split.
  - intros id Hid. rewrite Hreg. now apply lookup_insert_ne.
  - intros other Hother. rewrite Hopen.
    destruct connect;
      rewrite ?elem_of_difference, elem_of_union, !elem_of_singleton; tauto.
  - exact Hreg.
  - intros other Hother. rewrite Hopen.
    rewrite elem_of_difference, elem_of_singleton. tauto.
Qed.

Lemma session_events_are_local_witness :
  activeAgents
    (step (step initial (Connection 1%nat "id-1" (Return tt)))
          (Connection 2%nat "id-2" (Throw (JsError "Error" "refused"))))
  !! "id-1"
  = Some (new_agent 1%nat).
Proof.
  rewrite (proj1 (session_events_are_local
                    (step initial (Connection 1%nat "id-1" (Return tt)))
                    (Connection 2%nat "id-2"
                       (Throw (JsError "Error" "refused"))))
             "id-1" ltac:(discriminate)).
  reflexivity.
Defined.

Lemma run_entries_come_from_connections (events : list event) :
  ∀ (st : State) (earlier : list event),
    (∀ id agent, activeAgents st !! id = Some agent →
       ∃ ws connect, In (Connection ws id connect) earlier
                     ∧ agent = new_agent ws) →
    ∀ id agent, activeAgents (run st events) !! id = Some agent →
      ∃ ws connect, In (Connection ws id connect) (earlier ++ events)
                    ∧ agent = new_agent ws.
Proof.
  induction events as [|e events IH]; intros st earlier Hinv id agent Hin.
  - rewrite app_nil_r. now apply Hinv.
  - simpl in Hin.
    replace (earlier ++ e :: events) with ((earlier ++ [e]) ++ events)
      by now rewrite <- app_assoc.
    apply (IH (step st e) (earlier ++ [e])); [|exact Hin].
    clear id agent Hin. intros id agent.
    rewrite step_activeAgents. destruct e as [ws uuid connect | ws].
    + rewrite lookup_insert. case_decide as Hid.
      * intros [= <-]. subst id. exists ws, connect.
        split; [|reflexivity]. apply in_or_app. right. now left.
      * intros Hold. destruct (Hinv id agent Hold) as (ws' & c & Hev & ->).
        exists ws', c. split; [|reflexivity]. apply in_or_app. now left.
    + intros Hold. destruct (Hinv id agent Hold) as (ws' & c & Hev & ->).
      exists ws', c. split; [|reflexivity]. apply in_or_app. now left.
Qed.

(** X12.  Every entry of the registry was put there by a connection:
    after any run from the empty registry, an entry under an identifier
    is the agent named ['Assistant'], with the three tools, bound to the
    socket of a connection of the run that drew that identifier. *)
Theorem registry_entries_come_from_connections (events : list event)
    (id : string) (agent : RealtimeAgent) :
  activeAgents (run initial events) !! id = Some agent →
  ∃ ws connect,
    In (Connection ws id connect) events
    ∧ agent = new_agent ws
    ∧ agent_name agent = "Assistant"
    ∧ agent_tools agent
      = ["file_operation"; "get_script_info"; "list_available_scripts"].
Proof.
  intros Hin.
  destruct (run_entries_come_from_connections events initial [])
    with (id := id) (agent := agent) as (ws & connect & Hev & ->).
  - intros id' agent' Hempty. simpl in Hempty.
    rewrite lookup_empty in Hempty. discriminate.
  - exact Hin.
  - exists ws, connect. repeat split. exact Hev.
Qed.

Lemma registry_entries_come_from_connections_witness :
  ∃ ws connect,
    In (Connection ws "id-1" connect)
       [Connection 1%nat "id-1" (Return tt); SocketClosed 1%nat]
    ∧ new_agent 1%nat = new_agent ws
    ∧ agent_name (new_agent 1%nat) = "Assistant"
    ∧ agent_tools (new_agent 1%nat)
      = ["file_operation"; "get_script_info"; "list_available_scripts"].
Proof.
  apply (registry_entries_come_from_connections
           [Connection 1%nat "id-1" (Return tt); SocketClosed 1%nat]
           "id-1" (new_agent 1%nat)).
  reflexivity.
Defined.

(** ** The guidance text, further *)

Lemma nonempty_list_idem {A} (xs : option (list A)) :
  ScriptTool.nonempty_list (ScriptTool.nonempty_list xs)
  = ScriptTool.nonempty_list xs.
Proof. destruct xs as [[|x l]|]; reflexivity. Qed.

Lemma nonempty_string_idem (s : option string) :
  ScriptTool.nonempty_string (ScriptTool.nonempty_string s)
  = ScriptTool.nonempty_string s.
Proof.
  destruct s as [s|]; [|reflexivity]. simpl.
  destruct (String.eqb s "") eqn:Hs; simpl; [reflexivity|].
  now rewrite Hs.
Qed.

Section GuidanceFurther.
Context `{Platform}.

Lemma stage_text_drop_empty (stage : ScriptTool.Stage) (index : nat) :
  ScriptTool.stage_text (drop_empty_stage stage) index
  = ScriptTool.stage_text stage index.
Proof.
  unfold ScriptTool.stage_text, drop_empty_stage. simpl.
  now rewrite !nonempty_list_idem.
Qed.

Lemma stages_text_drop_empty (l : list ScriptTool.Stage) :
  ∀ index, stages_text index (drop_empty_stage <$> l) = stages_text index l.
Proof.
  induction l as [|stage l IH]; intros index; [reflexivity|].
  rewrite fmap_cons. simpl. now rewrite stage_text_drop_empty, IH.
Qed.

Lemma stages_text_app (l1 l2 : list ScriptTool.Stage) :
  ∀ index, stages_text index (l1 ++ l2)
           = stages_text index l1 +:+ stages_text (index + length l1) l2.
Proof.
  induction l1 as [|stage l1 IH]; intros index; simpl.
  - now rewrite Nat.add_0_r.
  - rewrite IH, string_app_assoc.
    now replace (S index + length l1)%nat with (index + S (length l1))%nat
      by lia.
Qed.

End GuidanceFurther.

(** X13.  An optional member that is there and empty adds nothing to the
    guidance: a descriptor whose question, action or interactive-element
    lists are empty, or whose output format is the empty string, gets the
    same text as the descriptor without these members. *)
Theorem guidance_ignores_empty_members `{Platform}
    (script : ScriptTool.Script) :
  ScriptTool.generateScriptInstructions (drop_empty script)
  = ScriptTool.generateScriptInstructions script.
Proof.
  rewrite !generateScriptInstructions_eq.
  unfold ScriptTool.output_format_text, ScriptTool.interactive_elements_text,
    drop_empty. simpl.
  now rewrite stages_text_drop_empty, nonempty_string_idem,
    nonempty_list_idem.
Qed.

(** X14.  The stages appear in the guidance in the order of the
    descriptor, numbered from 1: the text of a stage stands after the
    texts of the stages before it and before the texts of the stages
    after it, between the structure heading and the closing notes, and
    its number is its position. *)
Theorem guidance_keeps_stage_order `{Platform} (script : ScriptTool.Script)
    (before after : list ScriptTool.Stage) (stage : ScriptTool.Stage) :
  ScriptTool.stages script = before ++ stage :: after →
  ScriptTool.generateScriptInstructions script
  = (nl +:+ nl +:+ "## 🎯 ACTIVE SCRIPT: " +:+ ScriptTool.name script
       +:+ nl +:+ nl +:+ ScriptTool.description script +:+ nl +:+ nl)
    +:+ ("### 📋 SCRIPT STRUCTURE:" +:+ nl)
    +:+ stages_text 0 before
    +:+ ScriptTool.stage_text stage (length before)
    +:+ stages_text (S (length before)) after
    +:+ ScriptTool.output_format_text script
    +:+ ScriptTool.interactive_elements_text script
    +:+ ScriptTool.execution_guidelines.
Proof.
  intros Hstages. rewrite generateScriptInstructions_eq, Hstages.
  rewrite stages_text_app. simpl. now rewrite !string_app_assoc.
Qed.

Lemma guidance_keeps_stage_order_witness :
  ∃ head tail,
    @ScriptTool.generateScriptInstructions Samples.platform Samples.blog_writer
    = head
      +:+ ("1. **TOPIC**: Find the topic" +:+ nl
           +:+ "   - Key questions: What is it about?, Who reads it?" +:+ nl)
      +:+ ("2. **DRAFT**: Write the draft" +:+ nl
           +:+ "   - Available actions: create_file" +:+ nl)
      +:+ tail.
Proof.
  eexists _, _.
  rewrite (@guidance_keeps_stage_order Samples.platform Samples.blog_writer
             [ {| ScriptTool.stage_name := "topic";
                  ScriptTool.stage_prompt := "Find the topic";
                  ScriptTool.stage_questions :=
                    Some ["What is it about?"; "Who reads it?"];
                  ScriptTool.stage_actions := None |} ]
             []
             {| ScriptTool.stage_name := "draft";
                ScriptTool.stage_prompt := "Write the draft";
                ScriptTool.stage_questions := Some [];
                ScriptTool.stage_actions := Some ["create_file"] |}
             eq_refl).
  rewrite <- (string_app_assoc _ ("### 📋 SCRIPT STRUCTURE:" +:+ nl)).
  reflexivity.
Defined.

(** ** The stream URL, further *)







Lemma string_of_uint_authority (u : Decimal.uint) :
  Url.all_chars Url.authority_char (NilEmpty.string_of_uint u) = true.
Proof. induction u; simpl; auto. Qed.

Lemma num_to_string_authority (n : Z) :
  Url.all_chars Url.authority_char (num_to_string n) = true.
Proof.
  unfold num_to_string, NilZero.string_of_int, NilZero.string_of_uint.
  destruct (Z.to_int n) as [u|u]; destruct u;
    try reflexivity; apply string_of_uint_authority.
Qed.

Lemma stream_matches_of_authority (env : Env) (req : Request) (secure : bool)
    (auth : string) :
  PUBLIC_URL env = (if secure then "https" else "http") +:+ "://" +:+ auth →
  Url.all_chars Url.authority_char auth = true →
  Claims.stream_matches_public_url env (twilio_voice env req).
Proof.
  intros Hurl Hauth.
  pose proof (wsUrl_of_public_url env secure auth Hurl) as Hws.
  assert (Url.all_chars Xml.value_char (wsUrl env) = true) as Hsafe.
  { rewrite Hws, !all_chars_app.
    rewrite (all_chars_weaken _ _ auth authority_char_value_char Hauth).
    destruct secure; reflexivity. }
  exists (twiml env), (Claims.twiml_elements (wsUrl env)),
    [("url", wsUrl env)], (wsUrl env),
    {| Url.scheme := if secure then "wss" else "ws"; Url.authority := auth;
       Url.path := "/twilio/stream" |},
    {| Url.scheme := if secure then "https" else "http";
       Url.authority := auth; Url.path := "" |}.
  split; [reflexivity|].
  split; [exact (twiml_well_formed (wsUrl env) Hsafe)|].
  split; [simpl; tauto|]. split; [reflexivity|].
  split.
  { rewrite Hws. apply parse_scheme_authority; [|exact Hauth|eauto].
    destruct secure; tauto. }
  split; [destruct secure; tauto|].
  split; [|split; reflexivity].
  rewrite Hurl. rewrite <- (string_app_nil_r auth) at 1.
  apply parse_scheme_authority; [|exact Hauth|tauto].
  destruct secure; tauto.
Qed.

(** X16.  Without a configured public URL (the variable unset or empty)
    the gateway stands for [http://localhost:PORT], with port 8080 when
    [PORT] is not set either, and the webhook then points the media
    stream at [ws://localhost:PORT/twilio/stream], in a well-formed
    document whose stream URL has the authority of that public URL and
    the media-stream path. *)
Theorem default_public_url_is_localhost (env : Env) (req : Request) :
  env_PUBLIC_URL env = None ∨ env_PUBLIC_URL env = Some "" →
  PUBLIC_URL env = "http://localhost:" +:+ num_to_string (PORT env)
  ∧ wsUrl env
    = "ws://localhost:" +:+ num_to_string (PORT env) +:+ "/twilio/stream"
  ∧ (env_PORT env = None → wsUrl env = "ws://localhost:8080/twilio/stream")
  ∧ Claims.stream_matches_public_url env (twilio_voice env req).
Proof.
  intros Hunset.
  assert (PUBLIC_URL env = "http://localhost:" +:+ num_to_string (PORT env))
    as Hurl by (unfold PUBLIC_URL; destruct Hunset as [-> | ->]; reflexivity).
  assert (wsUrl env
          = "ws://localhost:" +:+ num_to_string (PORT env) +:+ "/twilio/stream")
    as Hws.
  { exact (wsUrl_of_public_url env false
             ("localhost:" +:+ num_to_string (PORT env)) Hurl). }
  split; [exact Hurl|]. split; [exact Hws|]. split.
  - intros Hport. rewrite Hws. unfold PORT. rewrite Hport. reflexivity.
  - apply (stream_matches_of_authority env req false
             ("localhost:" +:+ num_to_string (PORT env)) Hurl).
    rewrite all_chars_app, num_to_string_authority. reflexivity.
Qed.

Lemma default_public_url_is_localhost_witness :
  wsUrl Samples.env_dev = "ws://localhost:8080/twilio/stream"
  ∧ Claims.stream_matches_public_url Samples.env_dev
      (twilio_voice Samples.env_dev Samples.req_call).
Proof.
  destruct (default_public_url_is_localhost Samples.env_dev Samples.req_call
              (or_introl eq_refl)) as (_ & _ & Hws & Hmatch).
  split; [exact (Hws eq_refl) | exact Hmatch].
Defined.

(** ** The frame logger *)

Import StreamLog.



